(** * PaperFilter: the arXiv listing scraper and the abstract enricher

    A shallow embedding of [arxiv_scraper.py] and
    [extract_links_and_abstracts.py].

    - Python [str] values are lists of Unicode code points.
    - The regular expressions of the sources are run by a small backtracking
      matcher (leftmost match, greedy quantifiers), as [re] does.
    - A parsed document is a tree of tags and text nodes; a reference to a
      [Tag] object is the position of the tag in the tree.
    - The network is a state-passing oracle; every request and every
      [time.sleep] is recorded in an event log.  [print] is not modelled. *)

From Stdlib Require Import Strings.String Strings.Ascii.
From stdpp Require Import base option list gmap pretty.

Set Default Proof Using "Type".

(** ** Text *)

Definition char := N.
Definition text := list char.

(** [str "..."] is the text of an ASCII literal of the source. *)
Definition str (s : string) : text :=
  (λ a, N_of_ascii a) <$> list_ascii_of_string s.

(** [str.isspace], which is also the class [\s] of [re] on [str] patterns. *)
Definition isspace (c : char) : bool :=
  ((9 <=? c) && (c <=? 13) || (28 <=? c) && (c <=? 32)
   || (c =? 133) || (c =? 160) || (c =? 5760)
   || (8192 <=? c) && (c <=? 8202)
   || (c =? 8232) || (c =? 8233) || (c =? 8239) || (c =? 8287)
   || (c =? 12288))%N.

(** The code points of the digit zero of every decimal number system
    (Unicode 14, category Nd): the class [\d] of [re] on [str] patterns. *)
Definition nd_zeros : list N :=
  [48; 1632; 1776; 1984; 2406; 2534; 2662; 2790; 2918; 3046; 3174; 3302;
   3430; 3558; 3664; 3792; 3872; 4160; 4240; 6112; 6160; 6470; 6608; 6784;
   6800; 6992; 7088; 7232; 7248; 42528; 43216; 43264; 43472; 43504; 43600;
   44016; 65296; 66720; 68912; 69734; 69872; 69942; 70096; 70384; 70736;
   70864; 71248; 71360; 71472; 71904; 72016; 72784; 73040; 73120; 92768;
   92864; 93008; 120782; 120792; 120802; 120812; 120822; 123200; 123632;
   125264; 130032]%N.

Definition isdigit (c : char) : bool :=
  existsb (λ z, (z <=? c) && (c <? z + 10))%N nd_zeros.

(** Case-insensitive comparison with an ASCII literal [l] under [re.I]:
    besides the two ASCII cases, [i] matches U+0130 and U+0131, [s] matches
    U+017F and [k] matches U+212A. *)
Definition lower_ascii (c : char) : char :=
  if ((65 <=? c) && (c <=? 90))%N then (c + 32)%N else c.

Definition ci_eq (l c : char) : bool :=
  ((lower_ascii c =? lower_ascii l)
   || (lower_ascii l =? 105) && ((c =? 304) || (c =? 305))
   || (lower_ascii l =? 115) && (c =? 383)
   || (lower_ascii l =? 107) && (c =? 8490))%N.

Fixpoint lstrip (s : text) : text :=
  match s with
  | c :: s' => if isspace c then lstrip s' else s
  | [] => []
  end.

(** [s.strip()] *)
Definition strip (s : text) : text := reverse (lstrip (reverse (lstrip s))).

(** [s.split()]: the maximal runs of non-whitespace characters. *)
Fixpoint split_ws_go (cur : text) (s : text) : list text :=
  match s with
  | [] => match cur with [] => [] | _ => [cur] end
  | c :: s' =>
      if isspace c
      then match cur with [] => split_ws_go [] s' | _ => cur :: split_ws_go [] s' end
      else split_ws_go (cur ++ [c]) s'
  end.

Definition split_ws (s : text) : list text := split_ws_go [] s.

(** [sep.join(l)] *)
Fixpoint join (sep : text) (l : list text) : text :=
  match l with
  | [] => []
  | [x] => x
  | x :: l' => x ++ sep ++ join sep l'
  end.

(** [s.startswith(p)] *)
Fixpoint startswith (p s : text) : bool :=
  match p, s with
  | [], _ => true
  | a :: p', b :: s' => (a =? b)%N && startswith p' s'
  | _ :: _, [] => false
  end.

(** ** Regular expressions

    Every pattern of the two sources is a sequence of single-character
    classes, each with a quantifier. *)

Inductive atom :=
| Chr (c : char)     (* a literal *)
| ChrI (c : char)    (* a literal under re.I *)
| Any                (* .  (no DOTALL: every character but the newline) *)
| Digit              (* \d *)
| Space.             (* \s *)

Inductive quant := One | Opt | Star | Plus.

Definition regex := list (atom * quant).

Definition atom_ok (a : atom) (c : char) : bool :=
  match a with
  | Chr l => (c =? l)%N
  | ChrI l => ci_eq l c
  | Any => negb (c =? 10)%N
  | Digit => isdigit c
  | Space => isspace c
  end.

(** Length of the longest prefix of [s] made of characters of [a]. *)
Fixpoint run (a : atom) (s : text) : nat :=
  match s with
  | c :: s' => if atom_ok a c then S (run a s') else 0
  | [] => 0
  end.

Definition qmin (q : quant) : nat :=
  match q with One | Plus => 1 | Opt | Star => 0 end.

Definition qmax (q : quant) (n : nat) : nat :=
  match q with One | Opt => n `min` 1 | Star | Plus => n end.

(** Greedy repetition with backtracking: [k] repetitions are tried first,
    then [k - 1], down to [lo]; the first count for which the rest of the
    pattern matches wins. *)
Fixpoint back (try : nat → option nat) (lo k : nat) : option nat :=
  match try k with
  | Some m => Some (k + m)
  | None =>
      match k with
      | S k' => if decide (lo ≤ k') then back try lo k' else None
      | 0 => None
      end
  end.

(** [match_here r s]: the length of the match of [r] at the start of [s]. *)
Fixpoint match_here (r : regex) (s : text) : option nat :=
  match r with
  | [] => Some 0
  | (a, q) :: r' =>
      let hi := qmax q (run a s) in
      if decide (qmin q ≤ hi)
      then back (λ k, match_here r' (drop k s)) (qmin q) hi
      else None
  end.

(** [re.search(r, s)]: start and length of the leftmost match. *)
Fixpoint search_from (r : regex) (i : nat) (s : text) : option (nat * nat) :=
  match match_here r s with
  | Some n => Some (i, n)
  | None =>
      match s with
      | _ :: s' => search_from r (S i) s'
      | [] => None
      end
  end.

Definition re_search (r : regex) (s : text) : option (nat * nat) :=
  search_from r 0 s.

(** [re.sub(r, '', s)]: every non-overlapping match, leftmost first, is
    deleted.  An empty match deletes nothing. *)
Fixpoint re_sub_go (r : regex) (skip : nat) (s : text) : text :=
  match s with
  | [] => []
  | c :: s' =>
      match skip with
      | S k => re_sub_go r k s'
      | 0 =>
          match match_here r s with
          | Some (S n) => re_sub_go r n s'
          | _ => c :: re_sub_go r 0 s'
          end
      end
  end.

Definition re_sub (r : regex) (s : text) : text := re_sub_go r 0 s.

(** [re.split(r, s)] for a pattern without groups whose matches are not
    empty. *)
Fixpoint re_split_go (r : regex) (skip : nat) (cur : text) (s : text) : list text :=
  match s with
  | [] => [cur]
  | c :: s' =>
      match skip with
      | S k => re_split_go r k cur s'
      | 0 =>
          match match_here r s with
          | Some (S n) => cur :: re_split_go r n [] s'
          | _ => re_split_go r 0 (cur ++ [c]) s'
          end
      end
  end.

Definition re_split (r : regex) (s : text) : list text := re_split_go r 0 [] s.

(** Pattern builders. *)
Definition lit (s : string) : regex := (λ c, (Chr c, One)) <$> str s.
Definition liti (s : string) : regex := (λ c, (ChrI c, One)) <$> str s.

(** [\d+\.\d+] *)
Definition re_number : regex := [(Digit, Plus); (Chr 46%N, One); (Digit, Plus)].
(** [/abs/\d+\.\d+] *)
Definition re_abs_link : regex := lit "/abs/" ++ re_number.
(** [/(\d+\.\d+)]: group 1 is the match without its first character. *)
Definition re_id : regex := lit "/" ++ re_number.
(** [Title:\s*] with [re.I] *)
Definition re_title_label : regex := liti "Title:" ++ [(Space, Star)].
(** [Title:] with [re.I] *)
Definition re_title : regex := liti "Title:".
(** [/search/] *)
Definition re_search_link : regex := lit "/search/".
(** [Authors?:\s*] with [re.I] *)
Definition re_authors_label : regex :=
  liti "Author" ++ [(ChrI 115%N, Opt); (ChrI 58%N, One); (Space, Star)].
(** [,] *)
Definition re_comma : regex := lit ",".
(** [https://arxiv.org/html/\d+\.\d+v\d+]: the dot of [arxiv.org] is not
    escaped in the source. *)
Definition re_html_abs : regex :=
  lit "https://arxiv" ++ [(Any, One)] ++ lit "org/html/" ++ re_number
  ++ lit "v" ++ [(Digit, Plus)].
(** [/html/\d+\.\d+] *)
Definition re_html_rel : regex := lit "/html/" ++ re_number.
(** [Abstract:\s*] with [re.I] *)
Definition re_abstract_label : regex := liti "Abstract:" ++ [(Space, Star)].
(** [Abstract] with [re.I] *)
Definition re_abstract : regex := liti "Abstract".

(** [match.group(1)] of a match of [re_id] at [i] of length [n]. *)
Definition group1 (s : text) (m : nat * nat) : text :=
  take (m.2 - 1) (drop (S m.1) s).

(** ** Documents

    What [BeautifulSoup(markup, 'html.parser')] builds: text nodes
    ([NavigableString]) and tags.  The parser stores the [class] attribute as
    the list of its tokens, the code assigns it as a plain string; every other
    attribute the sources read is a string and lives in the dictionary
    [attrs].

    The documents modelled hold text nodes of the class [NavigableString]
    only: comments, declarations and the strings that the parser puts into
    [script], [style] and [template] elements have classes of their own,
    which [get_text] skips, and are not represented. *)

Inductive classes :=
| CStr (s : text)
| CList (l : list text).

#[warnings="-register-all"]
Inductive node :=
| Str (s : text)
| Tag (name : text) (class : option classes) (attrs : gmap text text)
      (contents : list node).

Definition contents_of (n : node) : list node :=
  match n with Tag _ _ _ cs => cs | Str _ => [] end.

Definition attrs_of (n : node) : gmap text text :=
  match n with Tag _ _ a _ => a | Str _ => ∅ end.

(** [tag.get('href', '')] *)
Definition get_href (n : node) : text :=
  match attrs_of n !! str "href" with
  | Some h => h
  | None => []
  end.

Definition is_tag (nm : text) (n : node) : bool :=
  match n with Tag nm' _ _ _ => bool_decide (nm' = nm) | Str _ => false end.

Global Instance classes_eq_dec : EqDecision classes.
Proof. solve_decision. Defined.

(** [Tag.__eq__]: same name, same attributes and the same contents,
    recursively; a text node equals a text node with the same characters. *)
Fixpoint node_eqb (x y : node) : bool :=
  match x, y with
  | Str s, Str t => bool_decide (s = t)
  | Tag n c a cs, Tag n' c' a' cs' =>
      bool_decide (n = n') && bool_decide (c = c') && bool_decide (a = a')
      && (fix all2 (l l' : list node) : bool :=
            match l, l' with
            | [], [] => true
            | z :: l1, z' :: l1' => node_eqb z z' && all2 l1 l1'
            | _, _ => false
            end) cs cs'
  | _, _ => false
  end.

(** A reference to a [Tag] object: the child indexes from the root of the
    document down to the tag, with the tag found there. *)
Definition path := list nat.
Definition elem : Type := path * node.

Fixpoint get_node (n : node) (p : path) : option node :=
  match p with
  | [] => Some n
  | i :: p' => c ← contents_of n !! i; get_node c p'
  end.

Definition under (i : nat) (e : elem) : elem := (i :: e.1, e.2).

Section children.
Variable below_child : node → list elem.

(** The children [l], numbered from [i], each followed by what is below
    it. *)
Fixpoint below_children (i : nat) (l : list node) : list elem :=
  match l with
  | [] => []
  | c :: l' => ([i], c) :: (under i <$> below_child c) ++ below_children (S i) l'
  end.
End children.

(** [Tag.descendants]: document order, positions relative to the tag. *)
Fixpoint descendants (n : node) : list elem :=
  match n with
  | Str _ => []
  | Tag _ _ _ cs => below_children descendants 0 cs
  end.

(** [get_text()]: the text nodes below the tag, concatenated. *)
Fixpoint get_text (n : node) : text :=
  match n with
  | Str s => s
  | Tag _ _ _ cs =>
      (fix go (l : list node) : text :=
         match l with [] => [] | c :: l' => get_text c ++ go l' end) cs
  end.

(** [get_text(strip=True)]: every text node is stripped, the empty ones are
    left out. *)
Fixpoint get_text_strip (n : node) : text :=
  match n with
  | Str s => strip s
  | Tag _ _ _ cs =>
      (fix go (l : list node) : text :=
         match l with [] => [] | c :: l' => get_text_strip c ++ go l' end) cs
  end.

(** [Tag.string]: the only child when it is a text node, the [.string] of
    the only child when it is a tag. *)
Fixpoint tag_string (n : node) : option text :=
  match n with
  | Str s => Some s
  | Tag _ _ _ [c] => tag_string c
  | Tag _ _ _ _ => None
  end.

(** The filters of [find] and [find_all] ([bs4.SoupStrainer]): a tag name,
    [class_=] a string, [href=] a compiled pattern, [string=] a compiled
    pattern. *)
Record strainer := Strainer {
  want_name : text;
  want_class : option text;
  want_href : option regex;
  want_string : option regex
}.

Definition matches_re (r : regex) (s : text) : bool :=
  bool_decide (is_Some (re_search r s)).

(** A multi-valued attribute matches when one of its values does, or the
    values joined by a space do. *)
Definition class_matches (want : text) (c : option classes) : bool :=
  match c with
  | None => bool_decide (want = [])
  | Some (CStr s) => bool_decide (s = want)
  | Some (CList l) =>
      existsb (λ s, bool_decide (s = want)) l
      || bool_decide (join (str " ") l = want)
  end.

Definition href_matches (r : regex) (h : option text) : bool :=
  match h with
  | None => false
  | Some s => matches_re r s
  end.

Definition string_matches (r : regex) (s : option text) : bool :=
  match s with
  | None => false
  | Some s => matches_re r s
  end.

Definition accepts (f : strainer) (n : node) : bool :=
  match n with
  | Str _ => false
  | Tag nm c a _ =>
      bool_decide (nm = want_name f)
      && from_option (λ w, class_matches w c) true (want_class f)
      && from_option (λ r, href_matches r (a !! str "href")) true (want_href f)
      && from_option (λ r, string_matches r (tag_string n)) true (want_string f)
  end.

Definition by_name (nm : text) : strainer := Strainer nm None None None.
Definition by_class (nm cl : string) : strainer :=
  Strainer (str nm) (Some (str cl)) None None.
Definition by_href (nm : string) (r : regex) : strainer :=
  Strainer (str nm) None (Some r) None.

Definition rebase (p : path) (e : elem) : elem := (p ++ e.1, e.2).

(** [e.find_all(...)] and [e.find(...)] *)
Definition find_all (f : strainer) (e : elem) : list elem :=
  rebase e.1 <$> filter (λ d, accepts f d.2) (descendants e.2).

Definition find (f : strainer) (e : elem) : option elem :=
  head (find_all f e).

Definition split_last (p : path) : option (path * nat) :=
  i ← last p; Some (take (length p - 1) p, i).

Fixpoint number_from (q : path) (i : nat) (l : list node) : list elem :=
  match l with
  | [] => []
  | c :: l' => (q ++ [i], c) :: number_from q (S i) l'
  end.

(** [e.next_siblings] in the document [soup]. *)
Definition next_siblings (soup : node) (e : elem) : list elem :=
  match split_last e.1 with
  | None => []
  | Some (q, i) =>
      match get_node soup q with
      | Some parent => number_from q (S i) (drop (S i) (contents_of parent))
      | None => []
      end
  end.

(** [e.find_next_sibling(nm)] *)
Definition find_next_sibling (soup : node) (nm : text) (e : elem) : option elem :=
  head (filter (λ d, is_tag nm d.2) (next_siblings soup e)).

(** [e.parent] *)
Definition parent_of (soup : node) (e : elem) : option elem :=
  '(q, _) ← split_last e.1; n ← get_node soup q; Some (q, n).

(** A [BeautifulSoup] object is the tag [[document]] at the root. *)
Definition document (cs : list node) : node := Tag (str "[document]") None ∅ cs.
Definition root_of (soup : node) : elem := ([], soup).

(** ** The listing scraper ([arxiv_scraper.py]) *)

(** The dictionary [paper] of [get_papers_from_page]: the key [arxiv_id] is
    set only when the link's [href] matches [/(\d+\.\d+)]. *)
Record paper := Paper {
  arxiv_id : option text;
  title : text;
  authors : list text
}.

(** [re.sub(r'Title:\s*', '', t, flags=re.I).strip()] followed by
    [' '.join(title.split())]. *)
Definition clean_title (t : text) : text :=
  join (str " ") (split_ws (strip (re_sub re_title_label t))).

(** [not title or len(title) < 5] *)
Definition too_short (t : text) : bool :=
  bool_decide (t = []) || bool_decide (length t < 5).

(** Lines 69-88: the title container, else the descriptor span whose string
    matches [Title:]; [None] is the [continue] of line 88. *)
Definition scraper_title (soup : node) (dd : elem) : option text :=
  match find (by_class "div" "list-title") dd with
  | Some title_div => Some (clean_title (get_text title_div.2))
  | None =>
      match find (Strainer (str "span") (Some (str "descriptor")) None
                    (Some re_title)) dd with
      | Some title_span =>
          parent ← parent_of soup title_span;
          Some (clean_title (get_text parent.2))
      | None => None
      end
  end.

(** Lines 96-109. *)
Definition scraper_authors (dd : elem) : list text :=
  match find (by_class "div" "list-authors") dd with
  | Some authors_div =>
      match find_all (by_href "a" re_search_link) authors_div with
      | [] =>
          let authors_text :=
            strip (re_sub re_authors_label (get_text authors_div.2)) in
          match authors_text with
          | [] => []
          | _ =>
              strip <$> filter (λ a, strip a ≠ []) (re_split re_comma authors_text)
          end
      | author_links => (λ link : elem, get_text_strip link.2) <$> author_links
      end
  | None => []
  end.

(** The body of the loop of lines 51-112; [None] is a [continue]. *)
Definition scraper_paper (soup : node) (dt : elem) : option paper :=
  arxiv_link ← find (by_href "a" re_abs_link) dt;
  let href := get_href arxiv_link.2 in
  let id := group1 href <$> re_search re_id href in
  dd ← find_next_sibling soup (str "dd") dt;
  title ← scraper_title soup dd;
  if too_short title then None
  else Some (Paper id title (scraper_authors dd)).

(** Lines 41-114: [papers = []], the loop over [soup.find_all('dt')] with
    [papers.append(paper)], [return papers]. *)
Definition scraper_papers (soup : node) : list paper :=
  foldl (λ papers dt,
           match scraper_paper soup dt with
           | Some paper => papers ++ [paper]
           | None => papers
           end)
        [] (find_all (by_name (str "dt")) (root_of soup)).

(** What the program does to its environment. *)
Inductive event :=
| Get (url : text)       (* session.get(url, headers=headers, timeout=10) *)
| Sleep (ms : nat).      (* time.sleep *)

(** [f"{n}"] for a natural number *)
Definition dec (n : nat) : text := str (pretty n).

Section network.
(** [http_get url w]: the parsed body of the response, or [None] when
    [session.get] or [raise_for_status] raises a [RequestException]
    (timeout, connection error, status that is not 2xx). *)
Context {W : Type} (http_get : text → W → option node * W).

Definition get_papers_from_page (url : text) (w : W)
  : list paper * W * list event :=
  match http_get url w with
  | (Some soup, w') => (scraper_papers soup, w', [Get url])
  | (None, w') => ([], w', [Get url])
  end.

Definition page_url (base_url : text) (skip : nat) : text :=
  if decide (skip = 0) then base_url
  else base_url ++ str "?skip=" ++ dec skip ++ str "&show=" ++ dec 50.

(** The [while True] loop of [scrape_all_papers]; [None] when [fuel]
    iterations did not reach a [break]. *)
Fixpoint scrape_loop (fuel : nat) (base_url : text) (skip : nat)
    (all_papers : list paper) (w : W) (log : list event)
  : option (list paper * W * list event) :=
  match fuel with
  | 0 => None
  | S fuel' =>
      let '(papers, w', ev) := get_papers_from_page (page_url base_url skip) w in
      match papers with
      | [] => Some (all_papers, w', log ++ ev)
      | _ =>
          let all_papers := all_papers ++ papers in
          if decide (length papers < 50)
          then Some (all_papers, w', log ++ ev)
          else scrape_loop fuel' base_url (skip + 50) all_papers w'
                 (log ++ ev ++ [Sleep 1000])
      end
  end.

Definition scrape_all_papers (fuel : nat) (base_url : text) (w : W)
  : option (list paper * W * list event) :=
  scrape_loop fuel base_url 0 [] w [].
End network.

(** ** The abstract enricher ([extract_links_and_abstracts.py]) *)

(** The dictionary [paper] of [extract_papers_from_html]. *)
Record html_paper := HtmlPaper {
  hp_arxiv_id : text;
  hp_abs_link : text;
  hp_html_link : option text;
  hp_title : text
}.

(** The dictionary [paper_data] of [add_abstracts_to_html]. *)
Record paper_data := PaperData {
  pd_title : text;
  pd_html_link : text;
  pd_abs_link : text;
  pd_abstract : text
}.

Definition abs_url (id : text) : text := str "https://arxiv.org/abs/" ++ id.

(** [re.sub(r'Abstract:\s*', '', t, flags=re.I).strip()] *)
Definition clean_abstract (t : text) : text :=
  strip (re_sub re_abstract_label t).

(** Lines 102-113 and 193-204: the absolute link, else the link relative to
    the site's root. *)
Definition html_link_of (dt : elem) : option text :=
  match find (by_href "a" re_html_abs) dt with
  | Some html_link_tag => Some (get_href html_link_tag.2)
  | None =>
      match find (by_href "a" re_html_rel) dt with
      | Some html_link_tag =>
          let href := get_href html_link_tag.2 in
          if startswith (str "/") href
          then Some (str "https://arxiv.org" ++ href)
          else Some href
      | None => None
      end
  end.

(** The body of the loop of lines 85-133; [None] is a [continue]. *)
Definition html_paper_of (soup : node) (dt : elem) : option html_paper :=
  arxiv_link ← find (by_href "a" re_abs_link) dt;
  let href := get_href arxiv_link.2 in
  m ← re_search re_id href;
  let id := group1 href m in
  let html_link := html_link_of dt in
  dd ← find_next_sibling soup (str "dd") dt;
  title_div ← find (by_class "div" "list-title") dd;
  let title := clean_title (get_text title_div.2) in
  if too_short title then None
  else Some (HtmlPaper id (abs_url id) html_link title).

(** [extract_papers_from_html], on the parsed file. *)
Definition extract_papers_from_html (soup : node) : list html_paper :=
  foldl (λ papers dt,
           match html_paper_of soup dt with
           | Some paper => papers ++ [paper]
           | None => papers
           end)
        [] (find_all (by_name (str "dt")) (root_of soup)).

(** The literal of line 246. *)
Definition placeholder : text :=
  [65288; 26410; 33719; 21462; 21040; 25688; 35201; 65289]%N.

(** Lines 219-228: the new abstract container. *)
Definition abstract_div (abstract : text) : node :=
  Tag (str "div") (Some (CStr (str "list-abstract"))) ∅
    [Tag (str "span") (Some (CStr (str "descriptor"))) ∅ [Str (str "Abstract:")];
     Str (str " " ++ abstract)].

(** [set_contents n cs]: the tag [n] with the children [cs]. *)
Definition set_contents (cs : list node) (n : node) : node :=
  match n with
  | Tag nm c a _ => Tag nm c a cs
  | Str _ => n
  end.

(** [update_at soup p f]: the document with the tag at [p] replaced by its
    image under [f]. *)
Fixpoint update_at (n : node) (p : path) (f : node → node) : node :=
  match p with
  | [] => f n
  | i :: p' =>
      match contents_of n !! i with
      | Some c => set_contents (<[i := update_at c p' f]> (contents_of n)) n
      | None => n
      end
  end.

(** [tag.insert(k, new)] on the tag at [p]; [tag.append(new)] is the
    insertion at [len(tag.contents)]. *)
Definition insert_child (soup : node) (p : path) (k : nat) (new : node) : node :=
  update_at soup p
    (λ n, set_contents (take k (contents_of n) ++ new :: drop k (contents_of n)) n).

Definition append_child (soup : node) (p : path) (new : node) : node :=
  update_at soup p (λ n, set_contents (contents_of n ++ [new]) n).

(** [l.index(x)]: the first position whose element [==] [x]; [None] is the
    [ValueError]. *)
Fixpoint index_of (l : list node) (x : node) : option nat :=
  match l with
  | [] => None
  | y :: l' => if node_eqb y x then Some 0 else S <$> index_of l' x
  end.

(** Where a reference to a tag at [p] points after a child was inserted at
    index [k] of the tag at [q]. *)
Fixpoint shift (q : path) (k : nat) (p : path) : path :=
  match q, p with
  | [], i :: p' => if decide (k ≤ i) then S i :: p' else p
  | j :: q', i :: p' => if decide (i = j) then i :: shift q' k p' else p
  | _, [] => p
  end.

Definition relocate (ins : list (path * nat)) (p : path) : path :=
  foldl (λ p at_, shift at_.1 at_.2 p) p ins.

Inductive result (A : Type) :=
| Ok (a : A)
| ValueError.
Arguments Ok {A} a.
Arguments ValueError {A}.

(** Lines 231-239: where the new container goes.  The result is the new
    document and the place of the insertion. *)
Definition splice_abstract (soup : node) (dd : elem) (new : node)
  : result (node * (path * nat)) :=
  match find (by_class "div" "meta") dd with
  | Some meta_div =>
      match find (by_class "div" "list-subjects") meta_div with
      | Some subjects_div =>
          match index_of (contents_of meta_div.2) subjects_div.2 with
          | Some k => Ok (insert_child soup meta_div.1 k new, (meta_div.1, k))
          | None => ValueError
          end
      | None =>
          Ok (append_child soup meta_div.1 new,
              (meta_div.1, length (contents_of meta_div.2)))
      end
  | None =>
      Ok (append_child soup dd.1 new, (dd.1, length (contents_of dd.2)))
  end.

(** [abstract if abstract else "..."], [html_link or f"...{arxiv_id}v1"]:
    [None] and the empty string are both false. *)
Definition or_else (o : option text) (d : text) : text :=
  match o with
  | Some (c :: s) => c :: s
  | _ => d
  end.

(** Lines 242-247. *)
Definition make_paper_data (id title : text) (html_link abstract : option text)
  : paper_data :=
  PaperData title
    (or_else html_link (str "https://arxiv.org/html/" ++ id ++ str "v1"))
    (abs_url id)
    (or_else abstract placeholder).

(** What lines 166-204 derive for a marker. *)
Record located := Located {
  l_id : text;
  l_dd : elem;
  l_title : text;
  l_html_link : option text
}.

(** Lines 166-204 of [add_abstracts_to_html]; [None] is a [continue]. *)
Definition locate (soup : node) (dt : elem) : option located :=
  arxiv_link ← find (by_href "a" re_abs_link) dt;
  let href := get_href arxiv_link.2 in
  m ← re_search re_id href;
  let id := group1 href m in
  dd ← find_next_sibling soup (str "dd") dt;
  title_div ← find (by_class "div" "list-title") dd;
  let title := clean_title (get_text title_div.2) in
  Some (Located id dd title (html_link_of dt)).

(** What one iteration of the loop of lines 165-252 leaves behind. *)
Record step_out := StepOut {
  new_soup : node;
  inserted : option (path * nat);
  emitted : option paper_data
}.

Section enricher.
Context {W : Type} (http_get : text → W → option node * W).

(** [get_abstract]: [None] when the page has no abstract block and when
    the request fails. *)
Definition get_abstract (arxiv_id : text) (w : W)
  : option text * W * list event :=
  let url := abs_url arxiv_id in
  match http_get url w with
  | (Some soup, w') =>
      let abstract :=
        match find (by_class "blockquote" "abstract") (root_of soup) with
        | Some abstract_block => Some (clean_abstract (get_text abstract_block.2))
        | None =>
            match find (Strainer (str "blockquote") None None (Some re_abstract))
                    (root_of soup) with
            | Some abstract_block =>
                Some (clean_abstract (get_text abstract_block.2))
            | None => None
            end
        end in
      (abstract, w', [Get url])
  | (None, w') => (None, w', [Get url])
  end.

(** Lines 206-252 for a located pair: the re-entrant path reads the
    existing container; otherwise the abstract is fetched, a container is
    spliced in when the abstract is not empty, and the loop sleeps. *)
Definition enrich_located (soup : node) (r : located) (w : W)
  : result step_out * W * list event :=
  match find (by_class "div" "list-abstract") (l_dd r) with
  | Some existing_abstract =>
      let abstract := clean_abstract (get_text existing_abstract.2) in
      (Ok (StepOut soup None
             (Some (make_paper_data (l_id r) (l_title r) (l_html_link r)
                      (Some abstract)))),
       w, [])
  | None =>
      let '(abstract, w', ev) := get_abstract (l_id r) w in
      let data := make_paper_data (l_id r) (l_title r) (l_html_link r) abstract in
      match abstract with
      | Some (c :: s) =>
          match splice_abstract soup (l_dd r) (abstract_div (c :: s)) with
          | Ok (soup', at_) =>
              (Ok (StepOut soup' (Some at_) (Some data)), w', ev ++ [Sleep 500])
          | ValueError => (ValueError, w', ev)
          end
      | _ => (Ok (StepOut soup None (Some data)), w', ev ++ [Sleep 500])
      end
  end.

(** The body of the loop of lines 165-252 for the marker [dt]. *)
Definition enrich_dt (soup : node) (dt : elem) (w : W)
  : result step_out * W * list event :=
  match locate soup dt with
  | Some r => enrich_located soup r w
  | None => (Ok (StepOut soup None None), w, [])
  end.

(** The loop over [dt_tags].  The tags were located before the loop; a
    tag is found again in the current document at its first position moved
    by the insertions [ins] made since.  A reference always points at a tag
    (see [pending_reference_survives]); the loop goes on if it did not. *)
Fixpoint enrich_loop (dt_tags : list path) (ins : list (path * nat))
    (soup : node) (papers_data : list paper_data) (w : W) (log : list event)
  : result (node * list paper_data) * W * list event :=
  match dt_tags with
  | [] => (Ok (soup, papers_data), w, log)
  | p :: rest =>
      let p' := relocate ins p in
      match get_node soup p' with
      | None => enrich_loop rest ins soup papers_data w log
      | Some dt =>
          match enrich_dt soup (p', dt) w with
          | (Ok out, w', ev) =>
              enrich_loop rest
                (ins ++ option_list (inserted out))
                (new_soup out)
                (papers_data ++ option_list (emitted out))
                w' (log ++ ev)
          | (ValueError, w', ev) => (ValueError, w', log ++ ev)
          end
      end
  end.

(** [add_abstracts_to_html], on the parsed input file: the document written
    to the output file and the list handed to [save_to_txt]. *)
Definition add_abstracts_to_html (soup : node) (w : W)
  : result (node * list paper_data) * W * list event :=
  enrich_loop (fst <$> find_all (by_name (str "dt")) (root_of soup)) [] soup [] w [].
End enricher.

(** [save_to_txt]: the strings written to the file, one per [f.write];
    [now] is the formatted [datetime.now()]. *)
Definition rule (c : string) : text := mjoin (replicate 80 (str c)).

Definition txt_block (i : nat) (paper : paper_data) : list text :=
  [str "[" ++ dec i ++ str "] " ++ pd_title paper ++ [10%N];
   rule "-" ++ [10%N]]
  ++ match pd_html_link paper with
     | [] => []
     | l => [[72; 84; 77; 76; 38142; 25509; 58; 32]%N ++ l ++ [10%N]]
     end
  ++ [[25688; 35201; 39029; 38754; 58; 32]%N ++ pd_abs_link paper ++ [10%N];
      [10; 25688; 35201; 58; 10]%N ++ pd_abstract paper ++ [10%N];
      [10%N] ++ rule "=" ++ [10; 10]%N].

Definition save_to_txt (now : text) (papers_data : list paper_data) : list text :=
  [[97; 114; 88; 105; 118; 32; 82; 111; 98; 111; 116; 105; 99; 115; 32;
    35770; 25991; 20449; 24687; 27719; 24635; 10]%N;
   rule "=" ++ [10%N];
   [29983; 25104; 26102; 38388; 58; 32]%N ++ now ++ [10%N];
   [24635; 35745; 58; 32]%N ++ dec (length papers_data)
     ++ [32; 31687; 35770; 25991; 10]%N;
   rule "=" ++ [10; 10]%N]
  ++ mjoin (imap (λ i paper, txt_block (S i) paper) papers_data).

(** ** Sample documents *)

(** A tag as the parser builds it: [cls] are the tokens of its [class]
    attribute, [href] its [href] attribute. *)
Definition el (nm : string) (cls : list string) (href : option string)
    (cs : list node) : node :=
  Tag (str nm)
    (match cls with [] => None | _ => Some (CList (str <$> cls)) end)
    (match href with Some h => {[ str "href" := str h ]} | None => ∅ end)
    cs.

Definition txt (s : string) : node := Str (str s).

(** A marker as arXiv's listing pages have it. *)
Definition marker (abs_href : string) : node :=
  el "dt" [] None
    [el "a" [] (Some abs_href) [txt "arXiv:id"]; txt " ";
     el "a" [] (Some "/pdf/x") [txt "pdf"]].

Definition detail (title_text : string) (authors : list node) : node :=
  el "dd" [] None
    [el "div" ["meta"] None
       [el "div" ["list-title"; "mathjax"] None
          [el "span" ["descriptor"] None [txt "Title:"]; txt title_text];
        el "div" ["list-authors"] None authors;
        el "div" ["list-subjects"] None
          [el "span" ["descriptor"] None [txt "Subjects:"]; txt " Robotics (cs.RO)"]]].

Definition author (name : string) : node :=
  el "a" [] (Some "/search/cs?searchtype=author") [txt name].

(** The scenario of the specification: a well-formed pair and a marker whose
    link cannot be parsed. *)
Definition listing_scenario : node :=
  document
    [el "dl" [] None
       [marker "/abs/2511.08583"; txt " ";
        detail "   A   Study  of Robots " [author "Ada Lovelace"; txt ", "; author " Alan Turing "];
        txt " ";
        marker "/abs/unknown"; txt " ";
        detail " Another Study" []]].

(** ** The vocabulary of the properties *)

(** The words matched by one quantified class, and by a pattern. *)
Definition lang_q (a : atom) (q : quant) (w : text) : Prop :=
  Forall (λ c, atom_ok a c = true) w
  ∧ qmin q ≤ length w
  ∧ match q with One | Opt => length w ≤ 1 | Star | Plus => True end.

Fixpoint lang (r : regex) (w : text) : Prop :=
  match r with
  | [] => w = []
  | (a, q) :: r' => ∃ w1 w2, w = w1 ++ w2 ∧ lang_q a q w1 ∧ lang r' w2
  end.

(** A string of the form [\d+\.\d+]: digits, a dot, digits. *)
Definition number_like (s : text) : Prop :=
  ∃ a b, s = a ++ 46%N :: b
         ∧ a ≠ [] ∧ b ≠ []
         ∧ Forall (λ c, isdigit c = true) a
         ∧ Forall (λ c, isdigit c = true) b.

(** The URLs requested in a log. *)
Definition requests (log : list event) : list text :=
  omap (λ e, match e with Get url => Some url | Sleep _ => None end) log.

Section served.
Context {W : Type} (http_get : text → W → option node * W).

(** [served base skip w pages w']: the pages that come back when the
    listing is requested page after page from the offset [skip] in the
    world [w]; every page but the last has at least 50 records, the last
    has fewer. *)
Inductive served (base : text) : nat → W → list (list paper) → W → Prop :=
| served_last skip w papers w' ev :
    get_papers_from_page http_get (page_url base skip) w = (papers, w', ev) →
    length papers < 50 →
    served base skip w [papers] w'
| served_full skip w papers w1 ev rest w' :
    get_papers_from_page http_get (page_url base skip) w = (papers, w1, ev) →
    50 ≤ length papers →
    served base (skip + 50) w1 rest w' →
    served base skip w (papers :: rest) w'.
End served.

(** The log of [n] page requests from the offset [skip]: a pause of one
    second between two requests, none after the last. *)
Fixpoint page_trace (base : text) (skip n : nat) : list event :=
  match n with
  | 0 => []
  | S n' =>
      Get (page_url base skip)
      :: match n' with
         | 0 => []
         | S _ => Sleep 1000 :: page_trace base (skip + 50) n'
         end
  end.

(** A network that answers the [i]-th request with the [i]-th entry of a
    script, whatever the URL; a missing entry and [None] are failed requests.
    The world is the number of requests made. *)
Definition scripted (script : list (option node)) : text → nat → option node * nat :=
  λ _ i, (mjoin (script !! i), S i).

(** A full page: fifty well-formed markers. *)
Definition full_page : node :=
  document
    [el "dl" [] None
       (mjoin (replicate 50
                 [marker "/abs/2511.08583"; detail " A Study of Robots" []]))].

Definition listing_url : text := str "https://arxiv.org/list/cs.RO/recent".

(** The string that [save_to_txt] writes at line 296 for an abstract. *)
Definition abstract_line (abstract : text) : text :=
  [10; 25688; 35201; 58; 10]%N ++ abstract ++ [10%N].

(** A detail page with an abstract block, and one without. *)
Definition abs_page (body : string) : node :=
  document
    [el "blockquote" ["abstract"; "mathjax"] None
       [el "span" ["descriptor"] None [txt "Abstract:"]; txt body]].

Definition bare_page : node := document [el "h1" [] None [txt "No abstract here"]].

(** A listing with one pair. *)
Definition listing_one (title_text : string) : node :=
  document
    [el "dl" [] None [marker "/abs/2511.08583"; txt " "; detail title_text []]].

(** The first marker of [listing_scenario] and what lines 166-204 derive
    for it. *)
Definition scenario_dt : elem := ([0; 0], marker "/abs/2511.08583").

Definition scenario_dd : elem :=
  ([0; 2],
   detail "   A   Study  of Robots "
     [author "Ada Lovelace"; txt ", "; author " Alan Turing "]).

Definition scenario_located : located :=
  Located (str "2511.08583") scenario_dd (str "A Study of Robots") None.

(** A listing whose only author link has no text. *)
Definition listing_blank_author : node :=
  document
    [el "dl" [] None
       [marker "/abs/2511.08583"; txt " ";
        detail " A Study of Robots"
          [el "a" [] (Some "/search/cs?searchtype=author") []]]].

(** No whitespace at the start, no whitespace at the end. *)
Definition head_ok (s : text) : Prop :=
  match s with
  | [] => True
  | c :: _ => isspace c = false
  end.

Definition stripped (s : text) : Prop := head_ok s ∧ head_ok (reverse s).

(** [first_with P l x]: [x] is the first element of [l] that satisfies [P]. *)
Definition first_with {A} (P : A → Prop) (l : list A) (x : A) : Prop :=
  ∃ l1 l2, l = l1 ++ x :: l2 ∧ P x ∧ Forall (λ y, ¬ P y) l1.

(** The tags and text nodes below [e], in document order, at their
    positions in the document. *)
Definition below (e : elem) : list elem := rebase e.1 <$> descendants e.2.

(** [r] matches somewhere in [s]. *)
Definition occurs (r : regex) (s : text) : Prop :=
  ∃ u w v, s = u ++ w ++ v ∧ lang r w.

(** An [a] tag whose [href] attribute holds [/abs/\d+\.\d+]. *)
Definition abs_link (n : node) : Prop :=
  is_tag (str "a") n = true
  ∧ ∃ h, attrs_of n !! str "href" = Some h ∧ occurs re_abs_link h.

Definition title_container (n : node) : Prop :=
  accepts (by_class "div" "list-title") n = true.

Definition title_descriptor (n : node) : Prop :=
  accepts (Strainer (str "span") (Some (str "descriptor")) None (Some re_title)) n
  = true.

(** Where the title of a detail element is read: its first title container;
    when it has none, the parent of its first descriptor span whose string
    holds [Title:]. *)
Definition title_source (soup : node) (dd : elem) (src : node) : Prop :=
  (∃ title_div, first_with (λ e, title_container e.2) (below dd) title_div
                ∧ src = title_div.2)
  ∨ (Forall (λ e, ¬ title_container e.2) (below dd)
     ∧ ∃ title_span parent,
         first_with (λ e, title_descriptor e.2) (below dd) title_span
         ∧ parent_of soup title_span = Some parent
         ∧ src = parent.2).

(** A tag, as opposed to a text node. *)
Definition is_element (n : node) : Prop :=
  match n with Tag _ _ _ _ => True | Str _ => False end.

Global Instance is_element_dec n : Decision (is_element n).
Proof. destruct n; apply _. Defined.

(** [immediate_detail soup dt dd]: the detail element [dd] immediately
    follows the marker [dt]: it is a [dd] tag and the first tag among the
    later siblings of [dt], so that only text lies between the two. *)
Definition immediate_detail (soup : node) (dt dd : elem) : Prop :=
  first_with (λ e, is_element e.2) (next_siblings soup dt) dd
  ∧ is_tag (str "dd") dd.2 = true.

(** [marker_record soup dt p]: the marker [dt] is well formed and [p] is its
    record.  The marker has a link to an abstract page, the identifier is
    the first number after a slash in the [href] of the first such link; its
    detail element immediately follows it; the title is read at the title
    source and has at least 5 characters. *)
Inductive marker_record (soup : node) (dt : elem) (p : paper) : Prop :=
| MarkerRecord (link dd : elem) (src : node) :
    first_with (λ e, abs_link e.2) (below dt) link →
    immediate_detail soup dt dd →
    title_source soup dd src →
    (∃ m, re_search re_id (get_href link.2) = Some m
          ∧ arxiv_id p = Some (group1 (get_href link.2) m)) →
    title p = clean_title (get_text src) →
    5 ≤ length (title p) →
    authors p = scraper_authors dd →
    marker_record soup dt p.

Definition well_formed (soup : node) (dt : elem) : Prop :=
  ∃ p, marker_record soup dt p.

(** [extraction soup dts ps]: the records [ps] are those of the well-formed
    markers among [dts], one each, in the order of [dts]. *)
Inductive extraction (soup : node) : list elem → list paper → Prop :=
| extraction_nil : extraction soup [] []
| extraction_skip dt dts ps :
    ¬ well_formed soup dt → extraction soup dts ps →
    extraction soup (dt :: dts) ps
| extraction_emit dt dts p ps :
    marker_record soup dt p → extraction soup dts ps →
    extraction soup (dt :: dts) (p :: ps).

(** [paired soup]: where a marker of the document has a [dd] among its later
    siblings, the first of them immediately follows the marker. *)
Definition paired (soup : node) : Prop :=
  ∀ dt dd,
    dt ∈ find_all (by_name (str "dt")) (root_of soup) →
    first_with (λ e, is_tag (str "dd") e.2 = true) (next_siblings soup dt) dd →
    immediate_detail soup dt dd.

(** A listing in which two markers are followed by one detail element. *)
Definition listing_shared_detail : node :=
  document
    [el "dl" [] None
       [marker "/abs/2511.08583"; marker "/abs/2511.08584";
        detail " A Study of Robots" []]].

(** A listing whose detail element has no title container, only the
    descriptor span. *)
Definition listing_fallback : node :=
  document
    [el "dl" [] None
       [marker "/abs/2511.08583"; txt " ";
        el "dd" [] None
          [el "div" ["meta"] None
             [el "div" [] None
                [el "span" ["descriptor"] None [txt "Title:"];
                 txt " A Study of Robots"]]]]].

(** [valid soup e]: the reference [e] points at its tag in [soup]. *)
Definition valid (soup : node) (e : elem) : Prop := get_node soup e.1 = Some e.2.

(** [unchanged_but soup soup' q k]: a node of [soup] that is not on the way
    from the root to the tag at [q] is found in [soup'], as it was, where
    the insertion at index [k] of the tag at [q] has moved it. *)
Definition unchanged_but (soup soup' : node) (q : path) (k : nat) : Prop :=
  ∀ p n, get_node soup p = Some n → ¬ p `prefix_of` q →
         get_node soup' (shift q k p) = Some n.

(** A listing whose subjects block is not a child of the metadata region
    but lies deeper inside it. *)
Definition listing_nested_subjects : node :=
  document
    [el "dl" [] None
       [marker "/abs/2511.08583"; txt " ";
        el "dd" [] None
          [el "div" ["meta"] None
             [el "div" ["list-title"; "mathjax"] None
                [el "span" ["descriptor"] None [txt "Title:"]; txt " A Study of Robots"];
              el "div" ["row"] None
                [el "div" ["list-subjects"] None [txt "Robotics (cs.RO)"]]]]]].

(** [enriched soup]: every pair that lines 166-204 locate in [soup] has an
    abstract container in its detail element. *)
Definition has_container (soup : node) (dt : elem) : Prop :=
  match locate soup dt with
  | Some r => is_Some (find (by_class "div" "list-abstract") (l_dd r))
  | None => True
  end.

Global Instance has_container_dec soup dt : Decision (has_container soup dt).
Proof. unfold has_container. destruct (locate soup dt); apply _. Defined.



(** The output of a run on [listing_scenario] with the abstract
    "We study robots.". *)
Definition listing_enriched : node :=
  insert_child listing_scenario [0; 2; 0] 2 (abstract_div (str "We study robots.")).

(** ** The report of the listing scraper *)

(** The strings that [save_papers] writes to the text file (lines 181-196),
    one per [f.write]; [now] is the formatted [datetime.now()].  The JSON
    file of lines 177-178 is not modelled. *)
Definition et_al : text := [32; 31561]%N.

Definition authors_line (l : list text) : list text :=
  match l with
  | [] => []
  | _ =>
      [[32; 32; 32; 20316; 32773; 58; 32]%N ++ join (str ", ") (take 3 l)]
      ++ (if decide (3 < length l) then [et_al] else [])
      ++ [[10%N]]
  end.

Definition paper_block (i : nat) (p : paper) : list text :=
  [dec i ++ str ". " ++ title p ++ [10%N]]
  ++ match arxiv_id p with
     | Some (c :: s) => [str "   arXiv ID: " ++ (c :: s) ++ [10%N]]
     | _ => []
     end
  ++ authors_line (authors p)
  ++ [[10%N]].

Definition save_papers_txt (now : text) (papers : list paper) : list text :=
  [[97; 114; 88; 105; 118; 32; 82; 111; 98; 111; 116; 105; 99; 115; 32;
    35770; 25991; 26631; 39064; 21015; 34920; 10]%N;
   [29228; 21462; 26102; 38388; 58; 32]%N ++ now ++ [10%N];
   [24635; 35745; 58; 32]%N ++ dec (length papers)
     ++ [32; 31687; 35770; 25991; 10]%N;
   rule "=" ++ [10; 10]%N]
  ++ mjoin (imap (λ i p, paper_block (S i) p) papers).

Section scraper_main.
Context {W : Type} (http_get : text → W → option node * W).

(** [main] of [arxiv_scraper.py]: the text file is written only when a
    paper was found; [None] when [fuel] iterations of the page loop did not
    reach a [break]. *)
Definition scraper_main (fuel : nat) (now : text) (w : W)
  : option (option (list text) * W * list event) :=
  match scrape_all_papers http_get fuel listing_url w with
  | Some (papers, w', log) =>
      Some (match papers with
            | [] => None
            | _ => Some (save_papers_txt now papers)
            end, w', log)
  | None => None
  end.
End scraper_main.

(** A word of [s.split()]: not empty, no whitespace. *)
Definition word (w : text) : Prop :=
  w ≠ [] ∧ Forall (λ c, isspace c = false) w.

(** [' '.join(t.split())] *)
Definition normalize (t : text) : text := join (str " ") (split_ws t).

(** The strings that [save_to_txt] writes at lines 292 and 293. *)
Definition html_link_line (d : paper_data) : text :=
  [72; 84; 77; 76; 38142; 25509; 58; 32]%N ++ pd_html_link d ++ [10%N].

Definition abs_link_line (d : paper_data) : text :=
  [25688; 35201; 39029; 38754; 58; 32]%N ++ pd_abs_link d ++ [10%N].

(** What a first pass logs for the identifiers it fetches: a request to the
    abstract page, then the pause of half a second. *)
Definition fetch_trace (ids : list text) : list event :=
  mjoin ((λ id, [Get (abs_url id); Sleep 500]) <$> ids).

(** What the driver reports for a marker when no abstract can be fetched:
    the abstract of the container the detail element already has, else the
    placeholder. *)
Definition offline_record (soup : node) (dt : elem) : option paper_data :=
  r ← locate soup dt;
  Some (make_paper_data (l_id r) (l_title r) (l_html_link r)
          ((λ ea : elem, clean_abstract (get_text ea.2))
             <$> find (by_class "div" "list-abstract") (l_dd r))).

Section loop_state.
Context {W : Type} (http_get : text → W → option node * W).

(** The state in which the loop of lines 165-252 is after the markers
    [dt_tags]: the insertions made so far, the document, the records
    collected, the world and the log; [ValueError] when one of these markers
    raised.  [enrich_loop] over [dt_tags ++ rest] goes on from this state
    over [rest] (see [enrich_loop_from_state]). *)
Fixpoint enrich_state (dt_tags : list path) (ins : list (path * nat))
    (soup : node) (papers_data : list paper_data) (w : W) (log : list event)
  : result (list (path * nat) * node * list paper_data) * W * list event :=
  match dt_tags with
  | [] => (Ok (ins, soup, papers_data), w, log)
  | p :: rest =>
      let p' := relocate ins p in
      match get_node soup p' with
      | None => enrich_state rest ins soup papers_data w log
      | Some dt =>
          match enrich_dt http_get soup (p', dt) w with
          | (Ok out, w', ev) =>
              enrich_state rest
                (ins ++ option_list (inserted out))
                (new_soup out)
                (papers_data ++ option_list (emitted out))
                w' (log ++ ev)
          | (ValueError, w', ev) => (ValueError, w', log ++ ev)
          end
      end
  end.
End loop_state.

(** ** The second run of the driver *)


(** [free P n]: no node at or below [n] satisfies [P]. *)
Fixpoint free (P : node → bool) (n : node) : bool :=
  match n with
  | Str _ => negb (P n)
  | Tag _ _ _ cs => negb (P n) && forallb (free P) cs
  end.

(** [closed P Q n]: at or below [n], no node that satisfies [Q] lies inside
    a node that satisfies [P]. *)
Fixpoint closed (P Q : node → bool) (n : node) : bool :=
  match n with
  | Str _ => true
  | Tag _ _ _ cs =>
      (if P n then forallb (free Q) cs else true) && forallb (closed P Q) cs
  end.

Definition pairish (n : node) : bool :=
  is_tag (str "dt") n || is_tag (str "dd") n.

(** [flat soup]: markers and detail elements are not nested: no [dt] or
    [dd] lies inside a [dt] or [dd]. *)
Definition flat (soup : node) : bool := closed pairish pairish soup.

Definition is_title (n : node) : bool := accepts (by_class "div" "list-title") n.
Definition is_meta (n : node) : bool := accepts (by_class "div" "meta") n.

(** [titles_apart soup]: no title container is a metadata region or holds
    one. *)
Definition titles_apart (soup : node) : bool :=
  closed is_title is_meta soup && free (λ n, is_title n && is_meta n) soup.



(** A record whose abstract is not the placeholder and holds no label. *)
Definition plain_abstract (d : paper_data) : Prop :=
  pd_abstract d ≠ placeholder
  ∧ re_sub re_abstract_label (pd_abstract d) = pd_abstract d.

(** A listing whose title container is its metadata region. *)
Definition listing_title_is_meta : node :=
  document
    [el "dl" [] None
       [marker "/abs/2511.08583"; txt " ";
        el "dd" [] None
          [el "div" ["meta"; "list-title"] None
             [el "span" ["descriptor"] None [txt "Title:"];
              txt " A Study of Robots"]]]].

(** A listing with a second listing inside the title container of its
    detail element. *)
Definition listing_nested : node :=
  document
    [el "dl" [] None
       [marker "/abs/2511.08583"; txt " ";
        el "dd" [] None
          [el "div" ["list-title"] None
             [txt "Title: Proceedings of a Workshop";
              el "dl" [] None
                [marker "/abs/2511.08584";
                 el "dd" [] None
                   [el "div" ["list-title"] None [txt "Title: A Study of Robots"]]]]]]].

(** A listing with two well-formed pairs. *)
Definition listing_two : node :=
  document
    [el "dl" [] None
       [marker "/abs/2511.08583"; detail " A Study of Robots" [];
        marker "/abs/2511.08584"; detail " Another Study" []]].

(** * Properties *)

(** ** The matcher *)

Lemma run_le a s : run a s ≤ length s.
Proof. induction s as [|c s IH]; simpl; [lia|]. destruct (atom_ok a c); simpl; lia. Qed.

Lemma run_take a s k : k ≤ run a s → Forall (λ c, atom_ok a c = true) (take k s).
Proof.
  revert k. induction s as [|c s IH]; intros k Hk; simpl in *.
  - rewrite take_nil. constructor.
  - destruct k as [|k]; [constructor|]. simpl.
    destruct (atom_ok a c) eqn:E; [|lia].
    constructor; [done|]. apply IH. lia.
Qed.

Lemma run_app a w s :
  Forall (λ c, atom_ok a c = true) w → length w ≤ run a (w ++ s).
Proof.
  induction 1 as [|c w Hc _ IH]; simpl; [lia|]. rewrite Hc. lia.
Qed.

Lemma back_sound try lo k n :
  lo ≤ k → back try lo k = Some n →
  ∃ j m, lo ≤ j ≤ k ∧ try j = Some m ∧ n = j + m.
Proof.
  induction k as [|k IH]; simpl; intros Hlo.
  - destruct (try 0) as [m|] eqn:E; [|done].
    intros [= <-]. exists 0, m. split; [lia|done].
  - destruct (try (S k)) as [m|] eqn:E.
    + intros [= <-]. exists (S k), m. split; [lia|done].
    + destruct (decide (lo ≤ k)) as [Hl|]; [|done].
      intros H. destruct (IH Hl H) as (j & m & ? & ? & ?).
      exists j, m. split; [lia|done].
Qed.

Lemma back_complete try lo k j :
  lo ≤ j ≤ k → is_Some (try j) → is_Some (back try lo k).
Proof.
  induction k as [|k IH]; simpl; intros Hj Hs.
  - assert (j = 0) as -> by lia. destruct Hs as [m ->]. eauto.
  - destruct (try (S k)) as [m|] eqn:E; [eauto|].
    destruct (decide (j = S k)) as [->|Hne].
    { rewrite E in Hs. by destruct Hs. }
    destruct (decide (lo ≤ k)); [|lia]. apply IH; [lia|done].
Qed.

Lemma qmax_le q n : qmax q n ≤ n.
Proof. destruct q; simpl; lia. Qed.

Lemma match_here_sound r s n :
  match_here r s = Some n → n ≤ length s ∧ lang r (take n s).
Proof.
  revert s n. induction r as [|[a q] r IH]; intros s n; simpl.
  - intros [= <-]. split; [lia|]. by rewrite take_0.
  - destruct (decide _) as [Hlo|]; [|done]. intros H.
    apply back_sound in H as (j & m & Hj & Hm & ->); [|done].
    apply IH in Hm as [Hlen Hm]. rewrite length_drop in Hlen.
    pose proof (qmax_le q (run a s)). pose proof (run_le a s).
    split; [lia|].
    exists (take j s), (take m (drop j s)). split; [|split; [|done]].
    + by rewrite take_take_drop.
    + split; [apply run_take; lia|].
      rewrite length_take. split; [lia|].
      destruct q; simpl in *; try done; lia.
Qed.

Lemma match_here_complete r w s : lang r w → is_Some (match_here r (w ++ s)).
Proof.
  revert w s. induction r as [|[a q] r IH]; intros w s; simpl.
  - eauto.
  - intros (w1 & w2 & -> & (Hok & Hmin & Hmax) & Hw2).
    pose proof (run_app a w1 (w2 ++ s) Hok) as Hrun.
    rewrite <-(assoc_L (++)).
    assert (length w1 ≤ qmax q (run a (w1 ++ w2 ++ s))) as Hhi
      by (destruct q; simpl in *; lia).
    destruct (decide _) as [Hlo|Hlo]; [|lia].
    apply (back_complete _ _ _ (length w1)); [lia|].
    rewrite drop_app_length. by apply IH.
Qed.

Lemma search_from_sound r i s j n :
  search_from r i s = Some (j, n) →
  ∃ k, j = i + k ∧ k ≤ length s ∧ match_here r (drop k s) = Some n.
Proof.
  revert i. induction s as [|c s IH]; intros i; simpl.
  - destruct (match_here r []) as [m|] eqn:E; [|done].
    intros [= <- <-]. exists 0. split; [lia|]. split; [simpl; lia|done].
  - destruct (match_here r (c :: s)) as [m|] eqn:E.
    + intros [= <- <-]. exists 0. split; [lia|]. split; [simpl; lia|done].
    + intros H. apply IH in H as (k & -> & Hk & Hm).
      exists (S k). split; [lia|]. split; [simpl; lia|done].
Qed.

Lemma search_from_complete r i s k :
  k ≤ length s → is_Some (match_here r (drop k s)) → is_Some (search_from r i s).
Proof.
  revert i k. induction s as [|c s IH]; intros i k Hk Hs; simpl in *.
  - rewrite drop_nil in Hs. destruct Hs as [m ->]. eauto.
  - destruct (match_here r (c :: s)) as [m|] eqn:E; [eauto|].
    destruct k as [|k]; [rewrite drop_0, E in Hs; by destruct Hs|].
    apply (IH _ k); [lia|done].
Qed.

Lemma lang_app r1 r2 w :
  lang (r1 ++ r2) w ↔ ∃ w1 w2, w = w1 ++ w2 ∧ lang r1 w1 ∧ lang r2 w2.
Proof.
  revert w. induction r1 as [|[a q] r1 IH]; intros w; simpl.
  - split.
    + intros H. by exists [], w.
    + by intros (w1 & w2 & -> & -> & H).
  - split.
    + intros (u & v & -> & Hu & Hv). apply IH in Hv as (v1 & v2 & -> & Hv1 & Hv2).
      exists (u ++ v1), v2. rewrite (assoc_L (++)). split; [done|].
      split; [|done]. by exists u, v1.
    + intros (w1 & w2 & -> & (u & v & -> & Hu & Hv) & H2).
      exists u, (v ++ w2). rewrite (assoc_L (++)). split; [done|].
      split; [done|]. apply IH. by exists v, w2.
Qed.

(** A match of one class, exactly once, is one character of the class. *)
Lemma lang_q_one a w : lang_q a One w → ∃ c, w = [c] ∧ atom_ok a c = true.
Proof.
  intros (Hok & Hmin & Hmax). simpl in *.
  destruct w as [|c [|??]]; simpl in *; try lia.
  exists c. split; [done|]. by inversion Hok.
Qed.

Lemma lang_number w : lang re_number w → number_like w.
Proof.
  intros (a & w1 & -> & (Ha & Hamin & _) & dot & w2 & -> & Hdot & b & e & -> & (Hb & Hbmin & _) & ->).
  apply lang_q_one in Hdot as (c & -> & Hc). simpl in Hc.
  apply N.eqb_eq in Hc as ->. simpl in *.
  exists a, b. rewrite (right_id_L [] (++)).
  split; [done|]. split; [by intros ->; simpl in *; lia|].
  split; [by intros ->; simpl in *; lia|]. done.
Qed.

(** What [re.search] finds is a word of the pattern, inside the string. *)
Lemma re_search_sound r s i n :
  re_search r s = Some (i, n) →
  i ≤ length s ∧ n ≤ length (drop i s) ∧ lang r (take n (drop i s)).
Proof.
  intros H. apply search_from_sound in H as (k & -> & Hk & Hm).
  apply match_here_sound in Hm as [??]. done.
Qed.

Lemma re_search_complete r s u w v : s = u ++ w ++ v → lang r w → is_Some (re_search r s).
Proof.
  intros -> Hw. apply (search_from_complete r 0 _ (length u)).
  - rewrite length_app. lia.
  - rewrite drop_app_length. by apply match_here_complete.
Qed.

(** A link accepted by [/abs/\d+\.\d+] always has a match of [/(\d+\.\d+)],
    and group 1 of that match is a number. *)
Lemma abs_link_has_id href :
  matches_re re_abs_link href = true →
  ∃ m, re_search re_id href = Some m ∧ number_like (group1 href m).
Proof.
  unfold matches_re. rewrite bool_decide_eq_true. intros [[i n] Hs].
  apply re_search_sound in Hs as (Hi & Hn & Hl).
  change re_abs_link with (lit "/abs" ++ re_id) in Hl.
  apply lang_app in Hl as (w1 & w2 & Hw & _ & Hid).
  assert (is_Some (re_search re_id href)) as [[j m] Hj].
  { apply (re_search_complete _ _ (take i href ++ w1) w2 (drop n (drop i href))); [|done].
    rewrite <-(assoc_L (++)), (assoc_L (++) w1), <-Hw, take_drop, take_drop. done. }
  exists (j, m). split; [done|].
  apply re_search_sound in Hj as (Hj & Hm & Hl).
  change re_id with ([(Chr 47%N, One)] ++ re_number) in Hl.
  apply lang_app in Hl as (s1 & s2 & Hw' & (a & b & -> & Ha & ->) & Hnum).
  apply lang_q_one in Ha as (c & -> & _). simpl in Hw'.
  apply lang_number. unfold group1. simpl.
  assert (m = S (length s2)) as ->.
  { apply (f_equal length) in Hw'. rewrite length_take in Hw'. simpl in Hw'. lia. }
  destruct (drop j href) as [|c' rest] eqn:Hd; [done|].
  simpl in Hw'. injection Hw' as _ Hw'.
  replace (drop (S j) href) with rest.
  { simpl. rewrite Nat.sub_0_r. by rewrite Hw'. }
  rewrite <-(Nat.add_1_r j), <-drop_drop, Hd. done.
Qed.

(** ** Loops and queries *)

(** A [for] loop that appends or continues collects its results in order. *)
Lemma collect_loop {A B} (body : A → option B) (l : list A) (acc : list B) :
  foldl (λ acc x, match body x with Some y => acc ++ [y] | None => acc end) acc l
  = acc ++ omap body l.
Proof.
  revert acc. induction l as [|x l IH]; intros acc; simpl.
  - by rewrite (right_id_L [] (++)).
  - rewrite IH. destruct (body x); simpl; [|done].
    by rewrite <-(assoc_L (++)).
Qed.

Lemma scraper_papers_omap soup :
  scraper_papers soup
  = omap (scraper_paper soup) (find_all (by_name (str "dt")) (root_of soup)).
Proof. unfold scraper_papers. by rewrite collect_loop. Qed.

Lemma extract_papers_omap soup :
  extract_papers_from_html soup
  = omap (html_paper_of soup) (find_all (by_name (str "dt")) (root_of soup)).
Proof. unfold extract_papers_from_html. by rewrite collect_loop. Qed.

Lemma find_all_accepts f e x : x ∈ find_all f e → accepts f x.2 = true.
Proof.
  unfold find_all. intros (d & -> & Hd)%list_elem_of_fmap.
  apply list_elem_of_filter in Hd as [Hd _]. simpl. by destruct (accepts f d.2).
Qed.

Lemma find_elem_of f e x : find f e = Some x → x ∈ find_all f e.
Proof. unfold find. intros H. by apply head_Some_elem_of. Qed.

Lemma find_accepts f e x : find f e = Some x → accepts f x.2 = true.
Proof. intros H. by eapply find_all_accepts, find_elem_of. Qed.

(** A tag found through [href=re.compile(r)] has an [href] that [r] matches. *)
Lemma accepts_href nm r n :
  accepts (by_href nm r) n = true →
  ∃ h, attrs_of n !! str "href" = Some h ∧ matches_re r h = true.
Proof.
  destruct n as [|nm' c a cs]; [done|]. simpl.
  rewrite !andb_true_iff. intros [[[_ _] Hh] _].
  destruct (a !! str "href") as [h|]; [|done]. by exists h.
Qed.

(** The identifier of every link that passes the filter of line 55 parses. *)
Lemma found_link_has_id dt link :
  find (by_href "a" re_abs_link) dt = Some link →
  ∃ m, re_search re_id (get_href link.2) = Some m
       ∧ number_like (group1 (get_href link.2) m).
Proof.
  intros (h & Hh & Hm)%find_accepts%accepts_href.
  unfold get_href. rewrite Hh. by apply abs_link_has_id.
Qed.

Lemma scraper_paper_id soup dt p :
  scraper_paper soup dt = Some p → ∃ id, arxiv_id p = Some id ∧ number_like id.
Proof.
  unfold scraper_paper. intros H.
  destruct (find (by_href "a" re_abs_link) dt) as [link|] eqn:Hl; [|done].
  destruct (found_link_has_id _ _ Hl) as (m & Hm & Hn).
  simpl in H. rewrite Hm in H. simpl in H.
  destruct (find_next_sibling _ _ _); [|done]. simpl in H.
  destruct (scraper_title _ _); [|done]. simpl in H.
  destruct (too_short _); [done|]. injection H as <-. simpl. eauto.
Qed.

Lemma html_paper_id soup dt p :
  html_paper_of soup dt = Some p → number_like (hp_arxiv_id p).
Proof.
  unfold html_paper_of. intros H.
  destruct (find (by_href "a" re_abs_link) dt) as [link|] eqn:Hl; [|done].
  destruct (found_link_has_id _ _ Hl) as (m & Hm & Hn).
  simpl in H. rewrite Hm in H. simpl in H.
  destruct (find_next_sibling _ _ _); [|done]. simpl in H.
  destruct (find (by_class _ _) _); [|done]. simpl in H.
  destruct (too_short _); [done|]. by injection H as <-.
Qed.

(** ** Identifiers *)

(** C6. Every record of [get_papers_from_page] has the key [arxiv_id], and
    its value has the form [\d+\.\d+]; so has the identifier of every record
    of [extract_papers_from_html]; a marker with no link whose [href]
    matches [/abs/\d+\.\d+] yields a record in neither. *)
Theorem identifiers_are_numbers {W} (http_get : text → W → option node * W)
    (url : text) (w : W) (soup : node) :
  Forall (λ p, ∃ id, arxiv_id p = Some id ∧ number_like id)
         (get_papers_from_page http_get url w).1.1
  ∧ Forall (λ p, number_like (hp_arxiv_id p)) (extract_papers_from_html soup)
  ∧ ∀ dt, find (by_href "a" re_abs_link) dt = None →
          scraper_paper soup dt = None ∧ html_paper_of soup dt = None.
Proof.
  split; [|split].
  - unfold get_papers_from_page. destruct (http_get url w) as [[page|] w']; simpl; [|constructor].
    rewrite scraper_papers_omap. apply Forall_forall. intros p Hp.
    apply list_elem_of_omap in Hp as (dt & _ & Hp). by eapply scraper_paper_id.
  - rewrite extract_papers_omap. apply Forall_forall. intros p Hp.
    apply list_elem_of_omap in Hp as (dt & _ & Hp). by eapply html_paper_id.
  - intros dt H. unfold scraper_paper, html_paper_of. by rewrite H.
Qed.

(** ** Pagination *)

Section pagination.
Context {W : Type} (http_get : text → W → option node * W).

Lemma get_papers_log url w :
  (get_papers_from_page http_get url w).2 = [Get url].
Proof. unfold get_papers_from_page. by destruct (http_get url w) as [[?|] ?]. Qed.

Lemma scrape_loop_served base skip w pages w' :
  served http_get base skip w pages w' →
  ∀ fuel acc log, length pages ≤ fuel →
    scrape_loop http_get fuel base skip acc w log
    = Some (acc ++ concat pages, w', log ++ page_trace base skip (length pages)).
Proof.
  induction 1 as [skip w papers w' ev Hget Hlen
                 |skip w papers w1 ev rest w' Hget Hlen Hrest IH];
    intros fuel acc log Hfuel; (destruct fuel as [|fuel]; [simpl in Hfuel; lia|]).
  - pose proof (get_papers_log (page_url base skip) w) as Hev.
    simpl. rewrite Hget in Hev |- *. simpl in Hev. subst ev.
    rewrite (right_id_L [] (++)).
    destruct papers as [|p papers]; [by rewrite (right_id_L [] (++))|].
    by rewrite decide_True by done.
  - pose proof (get_papers_log (page_url base skip) w) as Hev.
    cbn [scrape_loop]. rewrite Hget in Hev |- *. simpl in Hev. subst ev.
    destruct papers as [|p papers]; [simpl in Hlen; lia|].
    rewrite decide_False by lia.
    rewrite IH by (simpl in Hfuel; lia).
    assert (∃ n, length rest = S n) as [n Hn] by (destruct Hrest; simpl; eauto).
    cbn [length page_trace concat]. rewrite Hn. cbn [app].
    by rewrite <-!(assoc_L (++)).
Qed.

Lemma requests_page_trace base skip n :
  requests (page_trace base skip n)
  = (λ i, page_url base (skip + 50 * i)) <$> seq 0 n.
Proof.
  revert skip. induction n as [|n IH]; intros skip; [done|].
  cbn [page_trace seq fmap list_fmap]. rewrite Nat.mul_0_r, Nat.add_0_r.
  change (requests (Get ?u :: ?l)) with (u :: requests l). f_equal.
  destruct n as [|n]; [done|].
  change (requests (Sleep ?m :: ?l)) with (requests l).
  rewrite IH, <-fmap_S_seq, <-list_fmap_compose.
  apply list_fmap_ext. intros _ i _. simpl. f_equal. lia.
Qed.

Lemma last_page_trace base skip n :
  last (page_trace base skip (S n)) = Some (Get (page_url base (skip + 50 * n))).
Proof.
  revert skip. induction n as [|n IH]; intros skip.
  - simpl. do 3 f_equal. lia.
  - change (page_trace base skip (S (S n)))
      with (Get (page_url base skip) :: Sleep 1000 :: page_trace base (skip + 50) (S n)).
    rewrite !last_cons, IH. do 3 f_equal. lia.
Qed.

Lemma length_concat_pages (pages : list (list paper)) :
  length (concat pages) = sum_list (length <$> pages).
Proof.
  induction pages as [|p pages IH]; [done|].
  simpl. rewrite length_app. by rewrite IH.
Qed.

(** C4. When the pages requested in turn are [pages], the last of them the
    first with fewer than 50 records, the paginator returns: its result is
    the pages' records in order, as many as the pages' counts add up to;
    it has requested exactly the URLs of these pages, and the last thing
    it did was the request of the short page. *)
Theorem short_page_ends_pagination (base : text) (w w' : W)
    (pages : list (list paper)) (fuel : nat) :
  served http_get base 0 w pages w' →
  length pages ≤ fuel →
  ∃ log,
    scrape_all_papers http_get fuel base w = Some (concat pages, w', log)
    ∧ length (concat pages) = sum_list (length <$> pages)
    ∧ requests log = (λ i, page_url base (50 * i)) <$> seq 0 (length pages)
    ∧ last log = Some (Get (page_url base (50 * (length pages - 1)))).
Proof.
  intros Hs Hfuel. exists (page_trace base 0 (length pages)).
  split; [|split; [|split]].
  - unfold scrape_all_papers. by rewrite (scrape_loop_served _ _ _ _ _ Hs).
  - apply length_concat_pages.
  - by rewrite requests_page_trace.
  - assert (∃ n, length pages = S n) as [n ->] by (inversion Hs; simpl; eauto).
    rewrite last_page_trace. do 3 f_equal. lia.
Qed.

(** C5. A request that fails makes [get_papers_from_page] return the empty
    list; and when the page requested at some offset yields no record, for
    this or any other reason, the loop returns with the accumulator as it
    was, after that one request. *)
Theorem empty_page_ends_pagination (base : text) (skip : nat)
    (acc : list paper) (w : W) (log : list event) (fuel : nat) :
  (http_get (page_url base skip) w).1 = None
  ∨ (get_papers_from_page http_get (page_url base skip) w).1.1 = [] →
  (get_papers_from_page http_get (page_url base skip) w).1.1 = []
  ∧ scrape_loop http_get (S fuel) base skip acc w log
    = Some (acc, (http_get (page_url base skip) w).2,
            log ++ [Get (page_url base skip)]).
Proof.
  intros H.
  assert ((get_papers_from_page http_get (page_url base skip) w).1.1 = []) as He.
  { destruct H as [H|H]; [|done]. unfold get_papers_from_page.
    destruct (http_get (page_url base skip) w) as [[?|] ?]; simpl in *; done. }
  split; [done|]. simpl.
  assert (get_papers_from_page http_get (page_url base skip) w
          = ([], (http_get (page_url base skip) w).2, [Get (page_url base skip)]))
    as ->; [|done].
  revert He. unfold get_papers_from_page.
  destruct (http_get (page_url base skip) w) as [[?|] ?]; simpl; [|done].
  by intros ->.
Qed.
End pagination.

Lemma short_page_ends_pagination_witness :
  ∃ log,
    scrape_all_papers (scripted [Some full_page; Some listing_scenario]) 2 listing_url 0
    = Some (concat [scraper_papers full_page; scraper_papers listing_scenario], 2, log)
    ∧ length (concat [scraper_papers full_page; scraper_papers listing_scenario])
      = sum_list (length <$> [scraper_papers full_page; scraper_papers listing_scenario])
    ∧ requests log = (λ i, page_url listing_url (50 * i)) <$> seq 0 2
    ∧ last log = Some (Get (page_url listing_url (50 * (2 - 1)))).
Proof.
  apply (short_page_ends_pagination
           (scripted [Some full_page; Some listing_scenario]) listing_url 0 2
           [scraper_papers full_page; scraper_papers listing_scenario] 2).
  - eapply (served_full _ _ 0 0 _ 1).
    + reflexivity.
    + vm_compute. lia.
    + eapply (served_last _ _ 50 1 _ 2).
      * reflexivity.
      * vm_compute. lia.
  - simpl. lia.
Defined.

Lemma empty_page_ends_pagination_witness :
  (get_papers_from_page (scripted [None]) (page_url listing_url 50) 0).1.1 = []
  ∧ scrape_loop (scripted [None]) 1 listing_url 50 (scraper_papers listing_scenario) 0 []
    = Some (scraper_papers listing_scenario,
            (scripted [None] (page_url listing_url 50) 0).2,
            [] ++ [Get (page_url listing_url 50)]).
Proof.
  apply (empty_page_ends_pagination (scripted [None]) listing_url 50
           (scraper_papers listing_scenario) 0 [] 0).
  left. reflexivity.
Defined.

(** ** Labels *)

(** C9 (the code departs from the claim). [re.sub] deletes every occurrence
    of the label, not only the leading one: in the title that
    [get_papers_from_page] emits and in the abstract that [get_abstract]
    returns, a label inside the body is gone. *)
Theorem label_removed_everywhere :
  (title <$> (get_papers_from_page
                (scripted [Some (listing_one " Why the Title: Field Matters")])
                listing_url 0).1.1)
  = [str "Why the Field Matters"]
  ∧ (get_abstract (scripted [Some (abs_page " We model the Abstract: label of a page.")])
       (str "2511.08583") 0).1.1
    = Some (str "We model the label of a page.")
  ∧ clean_title (str "Title: Why the Title: Field Matters")
    = str "Why the Field Matters"
  ∧ clean_abstract (str "Abstract: We model the Abstract: label of a page.")
    = str "We model the label of a page.".
Proof. repeat split; vm_compute; reflexivity. Qed.

(** ** The placeholder *)

Lemma or_else_nonempty o d : d ≠ [] → or_else o d ≠ [].
Proof. intros Hd. by destruct o as [[|??]|]. Qed.

Lemma placeholder_nonempty : placeholder ≠ [].
Proof. done. Qed.

Lemma make_paper_data_abstract id t hl a :
  pd_abstract (make_paper_data id t hl a) ≠ [].
Proof. apply or_else_nonempty, placeholder_nonempty. Qed.

Lemma abstract_line_in_block i d : abstract_line (pd_abstract d) ∈ txt_block i d.
Proof.
  unfold txt_block. rewrite !elem_of_app. right. right.
  apply list_elem_of_further, list_elem_of_here.
Qed.

Lemma abstract_line_written now data d :
  d ∈ data → abstract_line (pd_abstract d) ∈ save_to_txt now data.
Proof.
  intros (i & Hi)%list_elem_of_lookup. unfold save_to_txt.
  apply elem_of_app. right. apply list_elem_of_join.
  exists (txt_block (S i) d). split; [apply abstract_line_in_block|].
  by apply (elem_of_lookup_imap_2 (λ i paper, txt_block (S i) paper) _ _ i).
Qed.

Section placeholder.
Context {W : Type} (http_get : text → W → option node * W).

Lemma enrich_located_emitted soup r w out w' ev d :
  enrich_located http_get soup r w = (Ok out, w', ev) →
  emitted out = Some d → pd_abstract d ≠ [].
Proof.
  unfold enrich_located.
  destruct (find (by_class "div" "list-abstract") (l_dd r)).
  - intros [= <- _ _] [= <-]. apply make_paper_data_abstract.
  - destruct (get_abstract http_get (l_id r) w) as [[a w1] ev1].
    destruct a as [[|c s]|].
    + intros [= <- _ _] [= <-]. apply make_paper_data_abstract.
    + destruct (splice_abstract _ _ _) as [[soup' at_]|]; [|done].
      intros [= <- _ _] [= <-]. apply make_paper_data_abstract.
    + intros [= <- _ _] [= <-]. apply make_paper_data_abstract.
Qed.

Lemma enrich_dt_emitted soup dt w out w' ev d :
  enrich_dt http_get soup dt w = (Ok out, w', ev) →
  emitted out = Some d → pd_abstract d ≠ [].
Proof.
  unfold enrich_dt. destruct (locate soup dt).
  - apply enrich_located_emitted.
  - by intros [= <- _ _] [=].
Qed.

Lemma enrich_loop_abstracts dts ins soup data w log :
  Forall (λ d, pd_abstract d ≠ []) data →
  match enrich_loop http_get dts ins soup data w log with
  | (Ok (_, data'), _, _) => Forall (λ d, pd_abstract d ≠ []) data'
  | (ValueError, _, _) => True
  end.
Proof.
  revert ins soup data w log.
  induction dts as [|p dts IH]; intros ins soup data w log Hdata; simpl; [done|].
  destruct (get_node soup (relocate ins p)) as [dt|]; [|by apply IH].
  destruct (enrich_dt http_get soup (relocate ins p, dt) w) as [[[out|] w'] ev] eqn:He;
    [|done].
  apply IH. apply Forall_app. split; [done|].
  destruct (emitted out) as [d|] eqn:Hd; [|constructor].
  repeat constructor. by eapply enrich_dt_emitted.
Qed.

(** The loop over [pre ++ rest] is the loop over [rest] from the state
    after [pre]. *)
Lemma enrich_loop_from_state pre rest ins soup data w log :
  enrich_loop http_get (pre ++ rest) ins soup data w log
  = match enrich_state http_get pre ins soup data w log with
    | (Ok (ins', soup', data'), w', log') =>
        enrich_loop http_get rest ins' soup' data' w' log'
    | (ValueError, w', log') => (ValueError, w', log')
    end.
Proof.
  revert ins soup data w log.
  induction pre as [|p pre IH]; intros ins soup data w log; [done|].
  cbn [app enrich_loop enrich_state].
  destruct (get_node soup (relocate ins p)) as [dt|]; [|apply IH].
  destruct (enrich_dt http_get soup (relocate ins p, dt) w) as [[[out|] w'] ev];
    [apply IH|done].
Qed.

(** The records collected so far stay in front of the list. *)
Lemma enrich_loop_keeps dts ins soup data w log soup' data' w' log' :
  enrich_loop http_get dts ins soup data w log = (Ok (soup', data'), w', log') →
  data `prefix_of` data'.
Proof.
  revert ins soup data w log.
  induction dts as [|p dts IH]; intros ins soup data w log; cbn [enrich_loop].
  - by intros [= _ <- _ _].
  - destruct (get_node soup (relocate ins p)) as [dt|]; [|apply IH].
    destruct (enrich_dt http_get soup (relocate ins p, dt) w) as [[[out|] w1] ev];
      [|done].
    intros H%IH. etrans; [|exact H]. by apply prefix_app_r.
Qed.

(** The strings written for a record are in the digest. *)
Lemma block_in_digest now data i d :
  data !! i = Some d → txt_block (S i) d ⊆ save_to_txt now data.
Proof.
  intros Hi x Hx. unfold save_to_txt. apply elem_of_app. right.
  apply list_elem_of_join. exists (txt_block (S i) d). split; [done|].
  by apply (elem_of_lookup_imap_2 (λ i paper, txt_block (S i) paper) _ _ i).
Qed.

(** No string of the digest is the abstract line of an empty abstract. *)
Lemma empty_abstract_never_written now data :
  Forall (λ d, pd_abstract d ≠ []) data →
  abstract_line [] ∉ save_to_txt now data.
Proof.
  intros Hdata. unfold save_to_txt.
  let r := eval vm_compute in (rule "=") in change (rule "=") with r.
  let r := eval vm_compute in (abstract_line []) in change (abstract_line []) with r.
  intros [Hh|Hb]%elem_of_app.
  - repeat (apply elem_of_cons in Hh as [Hh|Hh]; [discriminate Hh|]).
    by apply elem_of_nil in Hh.
  - apply list_elem_of_join in Hb as (block & Hx & Hblock).
    apply elem_of_lookup_imap_1 in Hblock as (i & d & -> & Hi).
    rewrite Forall_forall in Hdata.
    pose proof (Hdata d (list_elem_of_lookup_2 _ _ _ Hi)) as Hd.
    unfold txt_block in Hx.
    let r := eval vm_compute in (rule "=") in change (rule "=") with r in Hx.
    let r := eval vm_compute in (rule "-") in change (rule "-") with r in Hx.
    apply elem_of_app in Hx as [Hx|[Hx|Hx]%elem_of_app].
    + repeat (apply elem_of_cons in Hx as [Hx|Hx]; [discriminate Hx|]).
      by apply elem_of_nil in Hx.
    + destruct (pd_html_link d); [by apply elem_of_nil in Hx|].
      apply list_elem_of_singleton in Hx. discriminate Hx.
    + apply elem_of_cons in Hx as [Hx|Hx]; [discriminate Hx|].
      apply elem_of_cons in Hx as [Hx|Hx].
      * injection Hx as Hx. apply (f_equal length) in Hx.
        rewrite length_app in Hx. simpl in Hx.
        destruct (pd_abstract d); [done|simpl in Hx; lia].
      * apply list_elem_of_singleton in Hx. discriminate Hx.
Qed.

(** C8. When the loop reaches a marker whose pair has no container yet and
    [get_abstract] returns [None] for it, the record appended at line 248
    carries the placeholder, and it is in the list that line 268 hands to
    [save_to_txt], where the loop appended it: behind the records collected
    before.  [save_to_txt] writes the placeholder in the strings of that
    record, and no string of the digest is the abstract line of an empty
    abstract. *)
Theorem absent_abstract_gets_placeholder (soup : node) (w : W)
    (pre : list path) (p : path) (post : list path)
    (ins : list (path * nat)) (s : node) (acc : list paper_data) (w1 : W)
    (log1 : list event) (dt : node) (r : located) (w2 : W) (ev : list event)
    (soup' : node) (data : list paper_data) (w' : W) (log' : list event)
    (now : text) :
  fst <$> find_all (by_name (str "dt")) (root_of soup) = pre ++ p :: post →
  enrich_state http_get pre [] soup [] w [] = (Ok (ins, s, acc), w1, log1) →
  get_node s (relocate ins p) = Some dt →
  locate s (relocate ins p, dt) = Some r →
  find (by_class "div" "list-abstract") (l_dd r) = None →
  get_abstract http_get (l_id r) w1 = (None, w2, ev) →
  add_abstracts_to_html http_get soup w = (Ok (soup', data), w', log') →
  let d := make_paper_data (l_id r) (l_title r) (l_html_link r) None in
  take (length acc) data = acc
  ∧ data !! length acc = Some d
  ∧ pd_abstract d = placeholder
  ∧ placeholder ≠ []
  ∧ abstract_line placeholder ∈ txt_block (S (length acc)) d
  ∧ txt_block (S (length acc)) d ⊆ save_to_txt now data
  ∧ Forall (λ d, pd_abstract d ≠ []) data
  ∧ abstract_line [] ∉ save_to_txt now data.
Proof.
  intros Hdts Hpre Hdt Hr Hnone Hget Hrun d.
  assert (Forall (λ d, pd_abstract d ≠ []) data) as Hdata.
  { pose proof (enrich_loop_abstracts
                  (fst <$> find_all (by_name (str "dt")) (root_of soup))
                  [] soup [] w [] ltac:(constructor)) as H.
    unfold add_abstracts_to_html in Hrun. by rewrite Hrun in H. }
  unfold add_abstracts_to_html in Hrun.
  rewrite Hdts, enrich_loop_from_state, Hpre in Hrun.
  cbn [enrich_loop] in Hrun. rewrite Hdt in Hrun.
  unfold enrich_dt in Hrun. rewrite Hr in Hrun.
  unfold enrich_located in Hrun. rewrite Hnone, Hget in Hrun.
  cbn [new_soup inserted emitted option_list] in Hrun.
  apply enrich_loop_keeps in Hrun as [after Hafter].
  fold d in Hafter. rewrite <-(assoc_L (++)) in Hafter.
  assert (data !! length acc = Some d) as Hd.
  { rewrite Hafter. by apply list_lookup_middle. }
  split; [by rewrite Hafter, take_app_length|]. split; [done|].
  split; [done|]. split; [apply placeholder_nonempty|].
  split; [apply (abstract_line_in_block _ d)|].
  split; [by apply block_in_digest|]. split; [done|].
  by apply empty_abstract_never_written.
Qed.
End placeholder.

Lemma absent_abstract_gets_placeholder_witness :
  let first := make_paper_data (str "2511.08583") (str "A Study of Robots") None
                 (Some (str "We study robots.")) in
  let d := make_paper_data (str "2511.08584") (str "Another Study") None None in
  let data := [first; d] in
  let now := str "2026-01-01 00:00:00" in
  take 1 data = [first]
  ∧ data !! 1 = Some d
  ∧ pd_abstract d = placeholder
  ∧ placeholder ≠ []
  ∧ abstract_line placeholder ∈ txt_block 2 d
  ∧ txt_block 2 d ⊆ save_to_txt now data
  ∧ Forall (λ d, pd_abstract d ≠ []) data
  ∧ abstract_line [] ∉ save_to_txt now data.
Proof.
  intros first d data now.
  apply (absent_abstract_gets_placeholder
           (scripted [Some (abs_page " We study robots. "); Some bare_page])
           listing_two 0 [[0; 0]] [0; 2] []
           [([0; 1; 0], 2)]
           (insert_child listing_two [0; 1; 0] 2 (abstract_div (str "We study robots.")))
           [first] 1
           [Get (abs_url (str "2511.08583")); Sleep 500]
           (marker "/abs/2511.08584")
           (Located (str "2511.08584") ([0; 3], detail " Another Study" [])
              (str "Another Study") None)
           2 [Get (abs_url (str "2511.08584"))]
           (insert_child listing_two [0; 1; 0] 2 (abstract_div (str "We study robots.")))
           data 2
           [Get (abs_url (str "2511.08583")); Sleep 500;
            Get (abs_url (str "2511.08584")); Sleep 500] now).
  - vm_compute. reflexivity.
  - vm_compute. reflexivity.
  - vm_compute. reflexivity.
  - vm_compute. reflexivity.
  - vm_compute. reflexivity.
  - vm_compute. reflexivity.
  - vm_compute. reflexivity.
Defined.

(** ** Stripping *)

Lemma node_ind' (P : node → Prop) :
  (∀ s, P (Str s)) →
  (∀ nm c a cs, Forall P cs → P (Tag nm c a cs)) →
  ∀ n, P n.
Proof.
  intros HS HT. fix IH 1. intros [s|nm c a cs]; [apply HS|].
  apply HT. induction cs as [|x cs IHcs]; constructor; [apply IH|apply IHcs].
Qed.

Lemma lstrip_head_ok s : head_ok (lstrip s).
Proof.
  induction s as [|c s IH]; simpl; [done|].
  destruct (isspace c) eqn:E; [done|]. simpl. done.
Qed.

Lemma lstrip_id s : head_ok s → lstrip s = s.
Proof. destruct s as [|c s]; simpl; [done|]. by intros ->. Qed.

Lemma lstrip_suffix s :
  ∃ ws, s = ws ++ lstrip s ∧ Forall (λ c, isspace c = true) ws.
Proof.
  induction s as [|c s (ws & Hs & Hws)]; simpl; [by exists []|].
  destruct (isspace c) eqn:E.
  - exists (c :: ws). split; [by simpl; f_equal|]. by constructor.
  - by exists [].
Qed.

Lemma head_ok_prefix s t : head_ok (s ++ t) → head_ok s.
Proof. by destruct s. Qed.

Lemma head_ok_app s t : head_ok s → head_ok t → head_ok (s ++ t).
Proof. by destruct s. Qed.

Lemma strip_stripped s : stripped (strip s).
Proof.
  unfold stripped, strip. rewrite reverse_involutive.
  split; [|apply lstrip_head_ok].
  destruct (lstrip_suffix (reverse (lstrip s))) as (ws & Hs & _).
  apply (f_equal reverse) in Hs. rewrite reverse_involutive, reverse_app in Hs.
  apply (head_ok_prefix _ (reverse ws)). rewrite <-Hs. apply lstrip_head_ok.
Qed.

Lemma stripped_strip s : stripped s → strip s = s.
Proof.
  intros [H1 H2]. unfold strip.
  by rewrite (lstrip_id s), (lstrip_id (reverse s)), reverse_involutive.
Qed.

Lemma stripped_app s t : stripped s → stripped t → stripped (s ++ t).
Proof.
  intros [Hs1 Hs2] [Ht1 Ht2]. split; [by apply head_ok_app|].
  rewrite reverse_app. by apply head_ok_app.
Qed.

Lemma stripped_nil : stripped [].
Proof. done. Qed.

Lemma get_text_strip_stripped n : stripped (get_text_strip n).
Proof.
  induction n as [s|nm c a cs IH] using node_ind'; simpl; [apply strip_stripped|].
  induction IH as [|x cs Hx _ IHcs]; [apply stripped_nil|].
  by apply stripped_app.
Qed.

Lemma lstrip_nil s : lstrip s = [] ↔ Forall (λ c, isspace c = true) s.
Proof.
  induction s as [|c s IH]; simpl; [by split; [constructor|]|].
  destruct (isspace c) eqn:E.
  - rewrite IH. split; [by constructor|]. by inversion 1.
  - split; [done|]. inversion 1; congruence.
Qed.

Lemma strip_nil s : strip s = [] ↔ Forall (λ c, isspace c = true) s.
Proof.
  unfold strip. split.
  - intros H. apply (f_equal reverse) in H. rewrite reverse_involutive in H.
    simpl in H. apply lstrip_nil in H. rewrite Forall_reverse in H.
    destruct (lstrip_suffix s) as (ws & Hs & Hws). rewrite Hs.
    apply Forall_app. by split.
  - intros H. apply lstrip_nil in H. by rewrite H.
Qed.

(** The text of a link under [strip=True] is empty exactly when the link
    holds nothing but whitespace. *)
Lemma get_text_strip_nil n :
  get_text_strip n = [] ↔ Forall (λ c, isspace c = true) (get_text n).
Proof.
  induction n as [s|nm c a cs IH] using node_ind'; simpl; [apply strip_nil|].
  induction IH as [|x cs Hx _ IHcs]; [by split; [constructor|]|].
  rewrite Forall_app, <-Hx, <-IHcs. split.
  - by intros [??]%app_eq_nil.
  - by intros [-> ->].
Qed.

(** ** Authors *)

Lemma scraper_authors_stripped dd : Forall stripped (scraper_authors dd).
Proof.
  unfold scraper_authors.
  destruct (find (by_class "div" "list-authors") dd) as [authors_div|]; [|constructor].
  destruct (find_all (by_href "a" re_search_link) authors_div) as [|l ls].
  - destruct (strip _) as [|c s]; [constructor|].
    apply Forall_fmap, Forall_forall. intros a _. apply strip_stripped.
  - apply Forall_fmap, Forall_forall. intros a _. apply get_text_strip_stripped.
Qed.

Lemma scraper_paper_authors soup dt p :
  scraper_paper soup dt = Some p → ∃ dd, authors p = scraper_authors dd.
Proof.
  unfold scraper_paper. intros H.
  destruct (find (by_href "a" re_abs_link) dt); [|done]. simpl in H.
  destruct (find_next_sibling _ _ _) as [dd|]; [|done]. simpl in H.
  destruct (scraper_title _ _); [|done]. simpl in H.
  destruct (too_short _); [done|]. injection H as <-. by exists dd.
Qed.

(** C10 (amended). Every author of every record of [get_papers_from_page]
    is a string without whitespace at its ends.  For a detail element whose
    authors block has no author link, every author is moreover non-empty;
    with author links, the authors are the links' stripped texts, and the
    text of a link is empty exactly when the link holds only whitespace. *)
Theorem authors_are_stripped {W} (http_get : text → W → option node * W)
    (url : text) (w : W) (dd : elem) :
  Forall (λ p, Forall (λ a, strip a = a) (authors p))
         (get_papers_from_page http_get url w).1.1
  ∧ (∀ authors_div,
       find (by_class "div" "list-authors") dd = Some authors_div →
       find_all (by_href "a" re_search_link) authors_div = [] →
       Forall (λ a, a ≠ []) (scraper_authors dd))
  ∧ (∀ authors_div,
       find (by_class "div" "list-authors") dd = Some authors_div →
       find_all (by_href "a" re_search_link) authors_div ≠ [] →
       scraper_authors dd
       = (λ link : elem, get_text_strip link.2)
           <$> find_all (by_href "a" re_search_link) authors_div)
  ∧ (∀ link : node,
       get_text_strip link = [] ↔ Forall (λ c, isspace c = true) (get_text link)).
Proof.
  split; [|split; [|split]].
  - unfold get_papers_from_page.
    destruct (http_get url w) as [[page|] w']; simpl; [|constructor].
    rewrite scraper_papers_omap. apply Forall_forall. intros p Hp.
    apply list_elem_of_omap in Hp as (dt & _ & Hp).
    apply scraper_paper_authors in Hp as [dd' ->].
    eapply Forall_impl; [apply scraper_authors_stripped|].
    intros a Ha. by apply stripped_strip.
  - intros authors_div Hd Hl. unfold scraper_authors. rewrite Hd, Hl.
    destruct (strip _) as [|c s]; [constructor|].
    apply Forall_fmap, Forall_forall. intros a Ha.
    by apply list_elem_of_filter in Ha as [Ha _].
  - intros authors_div Hd Hl. unfold scraper_authors. rewrite Hd.
    by destruct (find_all _ authors_div).
  - apply get_text_strip_nil.
Qed.

(** C10 as stated fails: the record of a marker whose author link has no
    text has the empty string as its only author. *)
Lemma authors_can_be_empty :
  authors <$> (get_papers_from_page (scripted [Some listing_blank_author])
                 listing_url 0).1.1 = [[ [] ]]
  ∧ ¬ (∀ soup, Forall (λ p, Forall (λ a, a ≠ []) (authors p)) (scraper_papers soup)).
Proof.
  split; [vm_compute; reflexivity|].
  intros H. specialize (H listing_blank_author).
  assert (scraper_papers listing_blank_author
          = [Paper (Some (str "2511.08583")) (str "A Study of Robots") [[]]]) as Heq
    by (vm_compute; reflexivity).
  rewrite Heq in H. apply Forall_cons in H as [H _]. simpl in H.
  apply Forall_cons in H as [H _]. done.
Qed.

(** ** Extraction *)

Lemma first_with_unique {A} (P : A → Prop) (l : list A) x y :
  first_with P l x → first_with P l y → x = y.
Proof.
  intros (l1 & l2 & -> & Hx & H1) (k1 & k2 & Heq & Hy & Hk).
  revert k1 Heq Hk. induction l1 as [|a l1 IH]; intros k1 Heq Hk.
  - destruct k1 as [|b k1]; simpl in Heq; [congruence|].
    injection Heq as <- _. by apply Forall_cons in Hk as [Hk _].
  - apply Forall_cons in H1 as [Ha H1].
    destruct k1 as [|b k1]; simpl in Heq.
    + injection Heq as -> _. done.
    + injection Heq as <- Heq. apply Forall_cons in Hk as [_ Hk].
      by apply (IH H1 k1).
Qed.

Lemma head_filter_first {A} (P : A → Prop) `{!∀ x, Decision (P x)} (l : list A) x :
  head (filter P l) = Some x ↔ first_with P l x.
Proof.
  split.
  - intros Hh. assert (P x) as Hx.
    { apply head_Some_elem_of in Hh. by apply list_elem_of_filter in Hh as [? _]. }
    apply head_filter_Some in Hh as (l1 & l2 & -> & H1). by exists l1, l2.
  - intros (l1 & l2 & -> & Hx & H1). rewrite filter_app.
    replace (filter P l1) with (@nil A).
    + by rewrite filter_cons_True.
    + symmetry. induction H1 as [|a l1 Ha _ IH]; [done|].
      by rewrite filter_cons_False.
Qed.

Lemma head_filter_None {A} (P : A → Prop) `{!∀ x, Decision (P x)} (l : list A) :
  head (filter P l) = None ↔ Forall (λ x, ¬ P x) l.
Proof.
  induction l as [|a l IH]; [by split; [constructor|]|].
  destruct (decide (P a)) as [Ha|Ha].
  - rewrite filter_cons_True by done. simpl. split; [done|].
    by intros [??]%Forall_cons.
  - rewrite filter_cons_False by done. rewrite IH. split.
    + by constructor.
    + by intros [??]%Forall_cons.
Qed.

Lemma filter_fmap_commute {A B} (g : A → B) (P : B → Prop)
    `{!∀ y, Decision (P y)} (l : list A) :
  filter P (g <$> l) = g <$> filter (λ x, P (g x)) l.
Proof.
  induction l as [|x l IH]; [done|].
  rewrite fmap_cons, !filter_cons. destruct (decide (P (g x))); [|done].
  by rewrite fmap_cons, IH.
Qed.

Lemma find_all_below f e :
  find_all f e = filter (λ d, accepts f d.2 = true) (below e).
Proof.
  unfold find_all, below. rewrite filter_fmap_commute. f_equal.
  apply list_filter_iff. intros d. simpl. by destruct (accepts f d.2).
Qed.

Lemma find_first f e x :
  find f e = Some x ↔ first_with (λ d, accepts f d.2 = true) (below e) x.
Proof. unfold find. rewrite find_all_below. apply head_filter_first. Qed.

Lemma find_None f e :
  find f e = None ↔ Forall (λ d, ¬ accepts f d.2 = true) (below e).
Proof. unfold find. rewrite find_all_below. apply head_filter_None. Qed.

Lemma find_next_sibling_first soup nm e x :
  find_next_sibling soup nm e = Some x
  ↔ first_with (λ d, is_tag nm d.2 = true) (next_siblings soup e) x.
Proof.
  unfold find_next_sibling.
  rewrite <-(head_filter_first (λ d, is_tag nm d.2 = true)).
  replace (filter (λ d, is_tag nm d.2) (next_siblings soup e))
    with (filter (λ d, is_tag nm d.2 = true) (next_siblings soup e)); [done|].
  apply list_filter_iff. intros d. by destruct (is_tag nm d.2).
Qed.

Lemma matches_re_occurs r s : matches_re r s = true ↔ occurs r s.
Proof.
  unfold matches_re. rewrite bool_decide_eq_true. split.
  - intros [[i n] H]. apply re_search_sound in H as (_ & _ & H).
    exists (take i s), (take n (drop i s)), (drop n (drop i s)).
    by rewrite !take_drop.
  - intros (u & w & v & Hs & Hw). by eapply re_search_complete.
Qed.

Lemma accepts_abs_link n : accepts (by_href "a" re_abs_link) n = true ↔ abs_link n.
Proof.
  unfold abs_link. destruct n as [s|nm c a cs]; simpl; [by split; [|intros [? _]]|].
  rewrite !andb_true_iff, !bool_decide_eq_true. split.
  - intros [[[-> _] Hh] _]. split; [done|].
    destruct (a !! str "href") as [h|]; [|done]. simpl in Hh.
    exists h. split; [done|]. by apply matches_re_occurs.
  - intros [-> (h & -> & Hh)]. simpl. by rewrite (proj2 (matches_re_occurs _ _) Hh).
Qed.

Lemma first_with_iff {A} (P Q : A → Prop) (l : list A) x :
  (∀ y, P y ↔ Q y) → first_with P l x ↔ first_with Q l x.
Proof.
  intros HPQ. unfold first_with. setoid_rewrite HPQ.
  split; intros (l1 & l2 & ? & ? & H); exists l1, l2; (split; [done|]); (split; [done|]);
    (eapply Forall_impl; [exact H|]); intros y Hy; by rewrite ?HPQ in *.
Qed.

Lemma too_short_false t : too_short t = false ↔ 5 ≤ length t.
Proof.
  unfold too_short. rewrite orb_false_iff, !bool_decide_eq_false. split.
  - intros [_ ?]. lia.
  - intros H. split; [|lia]. intros ->. simpl in H. lia.
Qed.

(** The title derivation of lines 69-88 reads the title at the title
    source. *)
Lemma scraper_title_source soup dd t :
  scraper_title soup dd = Some t
  ↔ ∃ src, title_source soup dd src ∧ t = clean_title (get_text src).
Proof.
  unfold scraper_title, title_source, title_container, title_descriptor.
  destruct (find (by_class "div" "list-title") dd) as [title_div|] eqn:Hd.
  - apply find_first in Hd. split.
    + intros [= <-]. exists title_div.2. split; [|done]. left. eauto.
    + intros (src & [(td & Htd & ->)|[Hno _]] & ->).
      * by rewrite (first_with_unique _ _ _ _ Htd Hd).
      * destruct Hd as (l1 & l2 & Hl & Hacc & _). rewrite Hl in Hno.
        apply Forall_app in Hno as [_ Hno]. by apply Forall_cons in Hno as [Hno _].
  - apply find_None in Hd.
    destruct (find (Strainer _ _ _ _) dd) as [title_span|] eqn:Hs.
    + apply find_first in Hs. split.
      * destruct (parent_of soup title_span) as [parent|] eqn:Hp; [|done].
        intros [= <-]. exists parent.2. split; [|done]. right. split; [done|].
        by exists title_span, parent.
      * intros (src & [(td & Htd & ->)|(_ & sp & parent & Hsp & Hp & ->)] & ->).
        -- destruct Htd as (l1 & l2 & Hl & Hacc & _). rewrite Hl in Hd.
           apply Forall_app in Hd as [_ Hd]. by apply Forall_cons in Hd as [Hd _].
        -- rewrite (first_with_unique _ _ _ _ Hs Hsp), Hp. done.
    + apply find_None in Hs. split; [done|].
      intros (src & [(td & Htd & ->)|(_ & sp & parent & Hsp & Hp & ->)] & ->).
      * destruct Htd as (l1 & l2 & Hl & Hacc & _). rewrite Hl in Hd.
        apply Forall_app in Hd as [_ Hd]. by apply Forall_cons in Hd as [Hd _].
      * destruct Hsp as (l1 & l2 & Hl & Hacc & _). rewrite Hl in Hs.
        apply Forall_app in Hs as [_ Hs]. by apply Forall_cons in Hs as [Hs _].
Qed.

(** What the loop body of lines 51-112 emits for a marker. *)
Lemma scraper_paper_spec soup dt p :
  scraper_paper soup dt = Some p
  ↔ ∃ link dd src,
      first_with (λ e, abs_link e.2) (below dt) link
      ∧ find_next_sibling soup (str "dd") dt = Some dd
      ∧ title_source soup dd src
      ∧ (∃ m, re_search re_id (get_href link.2) = Some m
              ∧ arxiv_id p = Some (group1 (get_href link.2) m))
      ∧ title p = clean_title (get_text src)
      ∧ 5 ≤ length (title p)
      ∧ authors p = scraper_authors dd.
Proof.
  unfold scraper_paper. split.
  - intros H.
    destruct (find (by_href "a" re_abs_link) dt) as [link|] eqn:Hl; [|done].
    destruct (found_link_has_id _ _ Hl) as (m & Hm & _).
    simpl in H. rewrite Hm in H. simpl in H.
    destruct (find_next_sibling soup (str "dd") dt) as [dd|] eqn:Hdd; [|done].
    simpl in H.
    destruct (scraper_title soup dd) as [t|] eqn:Ht; [|done]. simpl in H.
    destruct (too_short t) eqn:Hshort; [done|]. injection H as <-.
    apply scraper_title_source in Ht as (src & Hsrc & ->).
    exists link, dd, src. simpl. split.
    { apply find_first in Hl.
      by apply (first_with_iff _ _ _ _ (λ e, accepts_abs_link e.2)). }
    split; [done|]. split; [done|]. split; [by exists m|].
    split; [done|]. split; [by apply too_short_false|done].
  - intros (link & dd & src & Hl & Hdd & Hsrc & (m & Hm & Hid) & Ht & Hlong & Hauth).
    apply (first_with_iff _ _ _ _ (λ e, accepts_abs_link e.2)) in Hl.
    apply find_first in Hl. rewrite Hl. simpl. rewrite Hm. simpl.
    rewrite Hdd. simpl.
    assert (scraper_title soup dd = Some (title p)) as ->.
    { apply scraper_title_source. by exists src. }
    simpl. rewrite (proj2 (too_short_false _) Hlong).
    destruct p as [i t a]. simpl in *. by rewrite Hid, Hauth.
Qed.






Lemma extraction_length soup dts ps : extraction soup dts ps → length ps ≤ length dts.
Proof. induction 1; simpl; lia. Qed.




(** Left out of C1: [find_next_sibling('dd')] takes the first [dd] among
    the later siblings also when it does not immediately follow the marker.
    Two markers in front of one detail element give two records with its
    title. *)
Lemma shared_detail_gives_two_records :
  ¬ paired listing_shared_detail
  ∧ (get_papers_from_page (scripted [Some listing_shared_detail]) listing_url 0).1.1
    = [Paper (Some (str "2511.08583")) (str "A Study of Robots") [];
       Paper (Some (str "2511.08584")) (str "A Study of Robots") []].
Proof.
  split; [|vm_compute; reflexivity].
  intros H.
  destruct (H ([0; 0], marker "/abs/2511.08583")
              ([0; 2], detail " A Study of Robots" [])) as [Hfirst _].
  - vm_compute. left.
  - apply find_next_sibling_first. vm_compute. reflexivity.
  - apply (head_filter_first (λ e : elem, is_element e.2)) in Hfirst.
    vm_compute in Hfirst. discriminate Hfirst.
Qed.


(** ** The two derivations of the enricher *)

(** [extract_papers_from_html] yields for a marker what lines 166-204 of the
    driver derive for it, when the title has at least 5 characters. *)
Lemma html_paper_of_locate soup dt :
  html_paper_of soup dt
  = r ← locate soup dt;
    if too_short (l_title r) then None
    else Some (HtmlPaper (l_id r) (abs_url (l_id r)) (l_html_link r) (l_title r)).
Proof.
  unfold html_paper_of, locate.
  destruct (find (by_href "a" re_abs_link) dt) as [link|]; [|done]. simpl.
  destruct (re_search re_id (get_href link.2)) as [m|]; [|done]. simpl.
  destruct (find_next_sibling soup (str "dd") dt) as [dd|]; [|done]. simpl.
  by destruct (find (by_class "div" "list-title") dd) as [title_div|].
Qed.

(** C3 (amended). For every document and marker, [extract_papers_from_html]
    yields a record only if the driver locates the pair, with the same
    identifier, title, abstract-page link and detail-page link; every pair
    the driver locates whose title has at least 5 characters is yielded by
    [extract_papers_from_html], and [get_papers_from_page] records it with
    the same identifier and title; the driver reads the title at the title
    container only. *)
Theorem driver_locates_like_extractor (soup : node) (dt : elem) :
  (∀ p, html_paper_of soup dt = Some p →
        ∃ r, locate soup dt = Some r
             ∧ hp_arxiv_id p = l_id r ∧ hp_title p = l_title r
             ∧ hp_html_link p = l_html_link r ∧ hp_abs_link p = abs_url (l_id r))
  ∧ (∀ r, locate soup dt = Some r → 5 ≤ length (l_title r) →
          html_paper_of soup dt
          = Some (HtmlPaper (l_id r) (abs_url (l_id r)) (l_html_link r) (l_title r))
          ∧ ∃ p, scraper_paper soup dt = Some p
                 ∧ arxiv_id p = Some (l_id r) ∧ title p = l_title r)
  ∧ (∀ r, locate soup dt = Some r →
          ∃ title_div, find (by_class "div" "list-title") (l_dd r) = Some title_div
                       ∧ l_title r = clean_title (get_text title_div.2)
                       ∧ scraper_title soup (l_dd r) = Some (l_title r)).
Proof.
  split; [|split].
  - intros p. rewrite html_paper_of_locate.
    destruct (locate soup dt) as [r|]; [|done]. simpl.
    destruct (too_short (l_title r)); [done|]. intros [= <-]. by exists r.
  - intros r Hr Hlen. rewrite html_paper_of_locate, Hr. simpl.
    rewrite (proj2 (too_short_false _) Hlen). split; [done|].
    revert Hr. unfold locate, scraper_paper.
    destruct (find (by_href "a" re_abs_link) dt) as [link|]; [|done]. simpl.
    destruct (re_search re_id (get_href link.2)) as [m|]; [|done]. simpl.
    destruct (find_next_sibling soup (str "dd") dt) as [dd|]; [|done]. simpl.
    unfold scraper_title.
    destruct (find (by_class "div" "list-title") dd) as [title_div|]; [|done]. simpl.
    intros [= <-]. simpl in *. rewrite (proj2 (too_short_false _) Hlen). eauto.
  - intros r. unfold locate.
    destruct (find (by_href "a" re_abs_link) dt) as [link|]; [|done]. simpl.
    destruct (re_search re_id (get_href link.2)) as [m|]; [|done]. simpl.
    destruct (find_next_sibling soup (str "dd") dt) as [dd|]; [|done]. simpl.
    destruct (find (by_class "div" "list-title") dd) as [title_div|] eqn:Ht; [|done].
    simpl. intros [= <-]. simpl. exists title_div. split; [done|]. split; [done|].
    unfold scraper_title. by rewrite Ht.
Qed.

(** C3 as stated fails: the detail element of [listing_fallback] has only
    the descriptor span; [get_papers_from_page] records the pair, the driver
    does not process it. *)
Lemma driver_has_no_title_fallback :
  (get_papers_from_page (scripted [Some listing_fallback]) listing_url 0).1.1
  = [Paper (Some (str "2511.08583")) (str "A Study of Robots") []]
  ∧ add_abstracts_to_html (scripted [Some (abs_page " We study robots.")])
      listing_fallback 0
    = (Ok (listing_fallback, []), 0, []).
Proof. split; vm_compute; reflexivity. Qed.

(** The driver has no test of the length of the title: a pair with the
    title "Hi" is not a record of [extract_papers_from_html], and the driver
    fetches its abstract and reports it. *)
Lemma driver_processes_short_title :
  extract_papers_from_html (listing_one " Hi") = []
  ∧ ∃ soup',
      add_abstracts_to_html (scripted [Some (abs_page " We study robots.")])
        (listing_one " Hi") 0
      = (Ok (soup',
             [PaperData (str "Hi") (str "https://arxiv.org/html/2511.08583v1")
                (str "https://arxiv.org/abs/2511.08583") (str "We study robots.")]),
         1, [Get (str "https://arxiv.org/abs/2511.08583"); Sleep 500]).
Proof. split; [vm_compute; reflexivity|]. eexists. vm_compute. reflexivity. Qed.

(** ** Positions in a document *)

Lemma get_node_app x p q :
  get_node x (p ++ q) = n ← get_node x p; get_node n q.
Proof.
  revert x. induction p as [|i p IH]; intros x; simpl; [done|].
  destruct (contents_of x !! i) as [c|]; simpl; [apply IH|done].
Qed.

Lemma below_children_spec desc i l e :
  e ∈ below_children desc i l
  ↔ ∃ j c, l !! j = Some c
           ∧ (e = ([i + j], c) ∨ ∃ d, d ∈ desc c ∧ e = under (i + j) d).
Proof.
  revert i. induction l as [|c0 l IH]; intros i; simpl.
  - split; [by intros ?%elem_of_nil|]. by intros (j & c & ? & _).
  - rewrite elem_of_cons, elem_of_app, IH, list_elem_of_fmap. split.
    + intros [->|[(d & -> & Hd)|(j & c & Hj & H)]].
      * exists 0, c0. rewrite Nat.add_0_r. split; [done|]. by left.
      * exists 0, c0. rewrite Nat.add_0_r. split; [done|]. right. eauto.
      * exists (S j), c. rewrite Nat.add_succ_r. by split.
    + intros ([|j] & c & Hj & H).
      * simpl in Hj. injection Hj as ->. rewrite Nat.add_0_r in H.
        destruct H as [->|(d & Hd & ->)]; [by left|]. right. left. eauto.
      * right. right. exists j, c. rewrite Nat.add_succ_r in H. by split.
Qed.

(** The descendants of a tag are the nodes reached from it by a path that is
    not empty. *)
Lemma elem_of_descendants x p n :
  (p, n) ∈ descendants x ↔ p ≠ [] ∧ get_node x p = Some n.
Proof.
  revert p n. induction x as [s|nm c a cs IH] using node_ind'; intros p n.
  - simpl. split; [by intros ?%elem_of_nil|].
    intros [Hp H]. by destruct p as [|i p].
  - simpl. rewrite below_children_spec. split.
    + intros (j & x & Hj & [[= -> ->]|(d & Hd & [= -> ->])]).
      * split; [done|]. simpl. by rewrite Hj.
      * rewrite Forall_forall in IH.
        destruct d as [q m]. apply (IH x) in Hd as [Hq Hn];
          [|by eapply list_elem_of_lookup_2].
        split; [done|]. simpl. by rewrite Hj.
    + intros [Hp H]. destruct p as [|j p]; [done|]. simpl in H.
      destruct (cs !! j) as [x|] eqn:Hj; [|done]. simpl in H.
      exists j, x. split; [done|].
      destruct p as [|i p]; [left; simpl in H; by injection H as ->|].
      right. exists (i :: p, n). split; [|done].
      rewrite Forall_forall in IH. apply (IH x); [by eapply list_elem_of_lookup_2|].
      done.
Qed.

Lemma elem_of_below soup e x :
  valid soup e → x ∈ below e →
  valid soup x ∧ ∃ q, q ≠ [] ∧ x.1 = e.1 ++ q ∧ get_node e.2 q = Some x.2.
Proof.
  unfold valid, below. intros He (d & -> & Hd)%list_elem_of_fmap.
  destruct d as [q n]. apply elem_of_descendants in Hd as [Hq Hn]. simpl.
  split; [by rewrite get_node_app, He|]. by exists q.
Qed.

Lemma find_valid soup f e x :
  valid soup e → find f e = Some x →
  valid soup x ∧ ∃ q, q ≠ [] ∧ x.1 = e.1 ++ q ∧ get_node e.2 q = Some x.2.
Proof.
  intros He Hx. apply (elem_of_below soup e x He).
  apply find_elem_of in Hx. rewrite find_all_below in Hx.
  by apply list_elem_of_filter in Hx as [_ Hx].
Qed.

Lemma find_all_valid soup f x :
  x ∈ find_all f (root_of soup) → valid soup x.
Proof.
  rewrite find_all_below. intros [_ Hx]%list_elem_of_filter.
  by apply (elem_of_below soup (root_of soup) x).
Qed.



Lemma elem_of_number_from q i l e :
  e ∈ number_from q i l ↔ ∃ j c, l !! j = Some c ∧ e = (q ++ [i + j], c).
Proof.
  revert i. induction l as [|c0 l IH]; intros i; simpl.
  - split; [by intros ?%elem_of_nil|]. by intros (j & c & ? & _).
  - rewrite elem_of_cons, IH. split.
    + intros [->|(j & c & Hj & ->)].
      * exists 0, c0. by rewrite Nat.add_0_r.
      * exists (S j), c. by rewrite Nat.add_succ_r.
    + intros ([|j] & c & Hj & ->).
      * left. simpl in Hj. injection Hj as ->. by rewrite Nat.add_0_r.
      * right. exists j, c. by rewrite Nat.add_succ_r.
Qed.

Lemma next_sibling_valid soup nm e x :
  find_next_sibling soup nm e = Some x → valid soup x.
Proof.
  unfold find_next_sibling, next_siblings, valid. intros H.
  apply head_Some_elem_of, list_elem_of_filter in H as [_ H].
  destruct (split_last e.1) as [[q i]|]; [|by apply elem_of_nil in H].
  destruct (get_node soup q) as [parent|] eqn:Hq; [|by apply elem_of_nil in H].
  apply elem_of_number_from in H as (j & c & Hj & ->). simpl.
  rewrite get_node_app, Hq. rewrite lookup_drop in Hj. simpl in *. by rewrite Hj.
Qed.

(** What lines 166-204 locate is in the document. *)
Lemma locate_valid soup dt r : locate soup dt = Some r → valid soup (l_dd r).
Proof.
  unfold locate.
  destruct (find (by_href "a" re_abs_link) dt) as [link|]; [|done]. simpl.
  destruct (re_search re_id (get_href link.2)) as [m|]; [|done]. simpl.
  destruct (find_next_sibling soup (str "dd") dt) as [dd|] eqn:Hdd; [|done]. simpl.
  destruct (find (by_class "div" "list-title") dd) as [title_div|]; [|done]. simpl.
  intros [= <-]. simpl. by eapply next_sibling_valid.
Qed.

(** [==] on tags and text nodes is equality. *)
Lemma node_eqb_eq x y : node_eqb x y = true ↔ x = y.
Proof.
  revert y. induction x as [s|nm c a cs IH] using node_ind'; intros [t|nm' c' a' cs']; simpl.
  - rewrite bool_decide_eq_true. split; congruence.
  - split; [done|congruence].
  - split; [done|congruence].
  - rewrite !andb_true_iff, !bool_decide_eq_true.
    assert ((fix all2 (l l' : list node) : bool :=
               match l, l' with
               | [], [] => true
               | z :: l1, z' :: l1' => node_eqb z z' && all2 l1 l1'
               | _, _ => false
               end) cs cs' = true ↔ cs = cs') as ->.
    { revert cs'. induction IH as [|z cs Hz _ IHcs]; intros [|z' cs'].
      - done.
      - split; [done|congruence].
      - split; [done|congruence].
      - rewrite andb_true_iff, Hz, IHcs. split; [by intros [-> ->]|].
        by intros [= -> ->]. }
    split; [by intros [[[-> ->] ->] ->]|]. by intros [= -> -> -> ->].
Qed.

Lemma index_of_first (l : list node) (x : node) (k : nat) :
  l !! k = Some x →
  (∀ j c, j < k → l !! j = Some c → c ≠ x) →
  index_of l x = Some k.
Proof.
  revert k. induction l as [|y l IH]; intros k Hk Hbefore; [done|]. simpl.
  destruct k as [|k]; simpl in Hk.
  - injection Hk as ->. by rewrite (proj2 (node_eqb_eq x x)).
  - destruct (node_eqb y x) eqn:E.
    + apply node_eqb_eq in E. by destruct (Hbefore 0 y ltac:(lia)).
    + rewrite (IH k); [done|done|].
      intros j c Hj Hc. apply (Hbefore (S j)); [lia|done].
Qed.

Lemma app_cons_split {A} (l1 l2 a b : list A) (x : A) :
  l1 ++ x :: l2 = a ++ b → x ∉ a →
  ∃ l1', l1 = a ++ l1' ∧ b = l1' ++ x :: l2.
Proof.
  revert l1. induction a as [|y a IH]; intros l1 Heq Hx; simpl in *.
  - by exists l1.
  - apply not_elem_of_cons in Hx as [Hxy Hx].
    destruct l1 as [|z l1]; simpl in Heq; [congruence|].
    injection Heq as -> Heq. destruct (IH l1 Heq Hx) as (l1' & -> & ->).
    by exists l1'.
Qed.

(** The children in front of a child that is the first of its kind below a
    tag are not of this kind. *)
Lemma below_children_first desc (Q : node → Prop) i l k n :
  first_with (λ e, Q e.2) (below_children desc i l) ([i + k], n) →
  ∀ j c, j < k → l !! j = Some c → ¬ Q c.
Proof.
  revert i k. induction l as [|c0 l IH]; intros i k Hfirst j c Hj Hc; [done|].
  destruct k as [|k]; [lia|].
  destruct Hfirst as (l1 & l2 & Heq & Hx & Hno). simpl in Heq.
  destruct l1 as [|e l1]; simpl in Heq.
  { injection Heq as Heq _. lia. }
  injection Heq as <- Heq. apply Forall_cons in Hno as [Hc0 Hno].
  destruct j as [|j]; [simpl in Hc; by injection Hc as <-|].
  symmetry in Heq. apply app_cons_split in Heq as (l1' & -> & Heq).
  - apply (IH (S i) k) with (j := j); [|lia|done].
    exists l1', l2. rewrite Nat.add_succ_r in Heq. split; [done|]. split; [done|].
    by apply Forall_app in Hno as [_ Hno].
  - intros (d & Hd & _)%list_elem_of_fmap. unfold under in Hd.
    injection Hd as Hd _. lia.
Qed.

Lemma first_with_fmap {A B} (g : A → B) (P : B → Prop) (l : list A) (y : B) :
  first_with P (g <$> l) y → ∃ x, y = g x ∧ first_with (λ x, P (g x)) l x.
Proof.
  intros (l1 & l2 & Heq & Hy & Hno).
  apply fmap_app_inv in Heq as (k1 & k2' & -> & Hk2 & ->).
  symmetry in Hk2. apply fmap_cons_inv in Hk2 as (x & k2 & -> & -> & ->).
  exists x. split; [done|]. exists k1, k2. split; [done|]. split; [done|].
  by rewrite Forall_fmap in Hno.
Qed.

(** A tag found by [find] directly under [e], at index [k]: it is the child
    at [k], and no child in front of it passes the filter. *)
Lemma find_child f e x k :
  find f e = Some x → x.1 = e.1 ++ [k] →
  contents_of e.2 !! k = Some x.2
  ∧ ∀ j c, j < k → contents_of e.2 !! j = Some c → accepts f c = false.
Proof.
  intros Hx Hk. apply find_first in Hx. unfold below in Hx.
  apply first_with_fmap in Hx as ([q n] & -> & Hx). simpl in *.
  apply app_inv_head in Hk as ->.
  assert (([k], n) ∈ descendants e.2) as Hin.
  { destruct Hx as (l1 & l2 & -> & _). apply elem_of_app. right. apply list_elem_of_here. }
  apply elem_of_descendants in Hin as [_ Hin].
  destruct e.2 as [s|nm c a cs]; simpl in *; [done|].
  split; [destruct (cs !! k); simpl in Hin; congruence|].
  intros j c' Hj Hc'.
  pose proof (below_children_first descendants (λ m, accepts f m = true) 0 cs k n Hx
                j c' Hj Hc') as Hno.
  simpl in Hno. destruct (accepts f c'); [by destruct Hno|done].
Qed.

Lemma get_node_update_at x p f n :
  get_node x p = Some n → get_node (update_at x p f) p = Some (f n).
Proof.
  revert x. induction p as [|i p IH]; intros x; simpl; [by intros [= ->]|].
  destruct (contents_of x !! i) as [c|] eqn:Hi; [|done]. simpl. intros Hn.
  destruct x as [s|nm cl a cs]; [done|]. simpl in *.
  rewrite list_lookup_insert_eq by (by eapply lookup_lt_Some). simpl. by apply IH.
Qed.

Lemma lookup_insert_at {A} (l : list A) (k i : nat) (new x : A) :
  l !! i = Some x →
  (take k l ++ new :: drop k l) !! (if decide (k ≤ i) then S i else i) = Some x.
Proof.
  intros Hi. pose proof (lookup_lt_Some _ _ _ Hi) as Hlt.
  destruct (decide (k ≤ i)).
  - rewrite lookup_app_r by (rewrite length_take; lia).
    rewrite length_take, Nat.min_l by lia.
    replace (S i - k) with (S (i - k)) by lia. simpl.
    rewrite lookup_drop. by replace (k + (i - k)) with i by lia.
  - rewrite lookup_app_l by (rewrite length_take; lia).
    rewrite lookup_take_lt by lia. done.
Qed.

(** The insertion of a child leaves what is not above it as it was. *)
Lemma insert_child_frame soup q k new : unchanged_but soup (insert_child soup q k new) q k.
Proof.
  unfold unchanged_but. revert soup.
  induction q as [|j q IH]; intros soup p n Hn Hpre.
  - destruct p as [|i p]; [by destruct Hpre; apply prefix_nil|].
    simpl in Hn. destruct (contents_of soup !! i) as [c|] eqn:Hi; [|done].
    destruct soup as [s|nm cl a cs]; [done|]. simpl in *.
    pose proof (lookup_insert_at cs k i new c Hi) as Hl.
    destruct (decide (k ≤ i)); simpl; by rewrite Hl.
  - destruct p as [|i p]; [by destruct Hpre; apply prefix_nil|].
    simpl in Hn. destruct (contents_of soup !! i) as [c|] eqn:Hi; [|done].
    simpl in Hn. unfold insert_child. simpl.
    destruct (decide (i = j)) as [->|Hij].
    + rewrite Hi. destruct soup as [s|nm cl a cs]; [done|]. simpl in *.
      rewrite list_lookup_insert_eq by (by eapply lookup_lt_Some). simpl.
      apply IH; [done|]. intros Hp. apply Hpre. by apply prefix_cons.
    + destruct (contents_of soup !! j) as [cj|] eqn:Hj.
      * destruct soup as [s|nm cl a cs]; [done|]. simpl in *.
        rewrite list_lookup_insert_ne by done. by rewrite Hi.
      * simpl. by rewrite Hi.
Qed.

(** ** Where the abstract container goes *)

Lemma update_at_ext x p f g n :
  get_node x p = Some n → f n = g n → update_at x p f = update_at x p g.
Proof.
  revert x. induction p as [|i p IH]; intros x; simpl; [by intros [= ->]|].
  destruct (contents_of x !! i) as [c|]; [|done]. simpl.
  intros Hn Hfg. by rewrite (IH c Hn Hfg).
Qed.

Lemma append_is_insert soup q new n :
  get_node soup q = Some n →
  append_child soup q new = insert_child soup q (length (contents_of n)) new.
Proof.
  intros Hn. unfold append_child, insert_child.
  apply (update_at_ext _ _ _ _ n Hn).
  by rewrite firstn_all, drop_all.
Qed.

Lemma lookup_inserted {A} (l : list A) (k : nat) (new : A) :
  k ≤ length l → (take k l ++ new :: drop k l) !! k = Some new.
Proof.
  intros Hk. rewrite lookup_app_r by (rewrite length_take; lia).
  by rewrite length_take, Nat.min_l, Nat.sub_diag by lia.
Qed.

Section splice.
Context {W : Type} (http_get : text → W → option node * W).

(** C7 (amended). For a located record whose detail element is in the
    document and has no abstract container, and whose [get_abstract] returns
    an abstract that is not empty: when the first subjects block of the
    metadata region is a child of the region, the new container becomes the
    child in front of it; when the region has no subjects block, the last
    child of the region; when the detail element has no metadata region, the
    last child of the detail element.  Every node that is not above the
    insertion is in the new document as it was. *)
Theorem abstract_container_position (soup : node) (r : located) (w w' : W)
    (ev : list event) (abstract : text) :
  valid soup (l_dd r) →
  find (by_class "div" "list-abstract") (l_dd r) = None →
  get_abstract http_get (l_id r) w = (Some abstract, w', ev) →
  abstract ≠ [] →
  let new := abstract_div abstract in
  let data := make_paper_data (l_id r) (l_title r) (l_html_link r) (Some abstract) in
  (∀ meta subjects k,
     find (by_class "div" "meta") (l_dd r) = Some meta →
     find (by_class "div" "list-subjects") meta = Some subjects →
     subjects.1 = meta.1 ++ [k] →
     let soup' := insert_child soup meta.1 k new in
     let cs := contents_of meta.2 in
     enrich_located http_get soup r w
     = (Ok (StepOut soup' (Some (meta.1, k)) (Some data)), w', ev ++ [Sleep 500])
     ∧ get_node soup' meta.1 = Some (set_contents (take k cs ++ new :: drop k cs) meta.2)
     ∧ (take k cs ++ new :: drop k cs) !! k = Some new
     ∧ (take k cs ++ new :: drop k cs) !! S k = Some subjects.2
     ∧ unchanged_but soup soup' meta.1 k)
  ∧ (∀ meta,
       find (by_class "div" "meta") (l_dd r) = Some meta →
       find (by_class "div" "list-subjects") meta = None →
       let soup' := append_child soup meta.1 new in
       let cs := contents_of meta.2 in
       enrich_located http_get soup r w
       = (Ok (StepOut soup' (Some (meta.1, length cs)) (Some data)), w', ev ++ [Sleep 500])
       ∧ get_node soup' meta.1 = Some (set_contents (cs ++ [new]) meta.2)
       ∧ unchanged_but soup soup' meta.1 (length cs))
  ∧ (find (by_class "div" "meta") (l_dd r) = None →
     let soup' := append_child soup (l_dd r).1 new in
     let cs := contents_of (l_dd r).2 in
     enrich_located http_get soup r w
     = (Ok (StepOut soup' (Some ((l_dd r).1, length cs)) (Some data)), w', ev ++ [Sleep 500])
     ∧ get_node soup' (l_dd r).1 = Some (set_contents (cs ++ [new]) (l_dd r).2)
     ∧ unchanged_but soup soup' (l_dd r).1 (length cs)).
Proof.
  intros Hdd Hnone Hget Hne new data.
  destruct abstract as [|c s]; [done|].
  split; [|split].
  - intros meta subjects k Hmeta Hsubj Hk soup' cs.
    destruct (find_valid _ _ _ _ Hdd Hmeta) as [Hvm _].
    destruct (find_child _ _ _ _ Hsubj Hk) as [Hlook Hbefore].
    pose proof (find_accepts _ _ _ Hsubj) as Hacc.
    assert (index_of (contents_of meta.2) subjects.2 = Some k) as Hidx.
    { apply index_of_first; [done|]. intros j c' Hj Hc' ->.
      rewrite (Hbefore j _ Hj Hc') in Hacc. done. }
    pose proof (lookup_lt_Some _ _ _ Hlook) as Hlt.
    split; [|split; [|split; [|split]]].
    + unfold enrich_located, splice_abstract.
      by rewrite Hnone, Hget, Hmeta, Hsubj, Hidx.
    + unfold soup', insert_child. by rewrite (get_node_update_at _ _ _ _ Hvm).
    + apply lookup_inserted. unfold cs. lia.
    + pose proof (lookup_insert_at cs k k new _ Hlook) as Hl.
      by rewrite decide_True in Hl by lia.
    + apply insert_child_frame.
  - intros meta Hmeta Hsubj soup' cs.
    destruct (find_valid _ _ _ _ Hdd Hmeta) as [Hvm _].
    split; [|split].
    + unfold enrich_located, splice_abstract.
      by rewrite Hnone, Hget, Hmeta, Hsubj.
    + unfold soup', append_child. by rewrite (get_node_update_at _ _ _ _ Hvm).
    + unfold soup'. rewrite (append_is_insert _ _ _ _ Hvm). apply insert_child_frame.
  - intros Hmeta soup' cs. split; [|split].
    + unfold enrich_located, splice_abstract.
      by rewrite Hnone, Hget, Hmeta.
    + unfold soup', append_child. by rewrite (get_node_update_at _ _ _ _ Hdd).
    + unfold soup'. rewrite (append_is_insert _ _ _ _ Hdd). apply insert_child_frame.
Qed.
End splice.

Lemma abstract_container_position_witness :
  let soup := listing_scenario in
  let r := scenario_located in
  let http_get := scripted [Some (abs_page " We study robots. ")] in
  let new := abstract_div (str "We study robots.") in
  let data := make_paper_data (l_id r) (l_title r) (l_html_link r)
                (Some (str "We study robots.")) in
  let ev := [Get (abs_url (str "2511.08583"))] in
  (∀ meta subjects k,
     find (by_class "div" "meta") (l_dd r) = Some meta →
     find (by_class "div" "list-subjects") meta = Some subjects →
     subjects.1 = meta.1 ++ [k] →
     let soup' := insert_child soup meta.1 k new in
     let cs := contents_of meta.2 in
     enrich_located http_get soup r 0
     = (Ok (StepOut soup' (Some (meta.1, k)) (Some data)), 1, ev ++ [Sleep 500])
     ∧ get_node soup' meta.1 = Some (set_contents (take k cs ++ new :: drop k cs) meta.2)
     ∧ (take k cs ++ new :: drop k cs) !! k = Some new
     ∧ (take k cs ++ new :: drop k cs) !! S k = Some subjects.2
     ∧ unchanged_but soup soup' meta.1 k)
  ∧ (∀ meta,
       find (by_class "div" "meta") (l_dd r) = Some meta →
       find (by_class "div" "list-subjects") meta = None →
       let soup' := append_child soup meta.1 new in
       let cs := contents_of meta.2 in
       enrich_located http_get soup r 0
       = (Ok (StepOut soup' (Some (meta.1, length cs)) (Some data)), 1, ev ++ [Sleep 500])
       ∧ get_node soup' meta.1 = Some (set_contents (cs ++ [new]) meta.2)
       ∧ unchanged_but soup soup' meta.1 (length cs))
  ∧ (find (by_class "div" "meta") (l_dd r) = None →
     let soup' := append_child soup (l_dd r).1 new in
     let cs := contents_of (l_dd r).2 in
     enrich_located http_get soup r 0
     = (Ok (StepOut soup' (Some ((l_dd r).1, length cs)) (Some data)), 1, ev ++ [Sleep 500])
     ∧ get_node soup' (l_dd r).1 = Some (set_contents (cs ++ [new]) (l_dd r).2)
     ∧ unchanged_but soup soup' (l_dd r).1 (length cs)).
Proof.
  apply (abstract_container_position (scripted [Some (abs_page " We study robots. ")])
           listing_scenario scenario_located 0 1
           [Get (abs_url (str "2511.08583"))] (str "We study robots.")).
  - vm_compute. reflexivity.
  - vm_compute. reflexivity.
  - vm_compute. reflexivity.
  - discriminate.
Defined.

(** On the scenario of the specification the container lands in front of
    the subjects block. *)
Lemma scenario_container_position :
  ∃ soup' data,
    add_abstracts_to_html (scripted [Some (abs_page " We study robots. ")])
      listing_scenario 0
    = (Ok (soup', data), 1, [Get (abs_url (str "2511.08583")); Sleep 500])
    ∧ (contents_of <$> get_node soup' [0; 2; 0])
      = (λ cs, take 2 cs ++ abstract_div (str "We study robots.") :: drop 2 cs)
          <$> (contents_of <$> get_node listing_scenario [0; 2; 0])
    ∧ is_tag (str "div") <$> (get_node soup' [0; 2; 0; 3]) = Some true
    ∧ (get_text <$> get_node soup' [0; 2; 0; 3])
      = Some (str "Subjects: Robotics (cs.RO)").
Proof. do 2 eexists. split; [vm_compute; reflexivity|]. repeat split. Qed.

(** C7 as stated fails: [get_abstract] returns the empty abstract of a page
    whose abstract block holds only the label, and no container is
    inserted. *)
Lemma empty_abstract_not_inserted :
  get_abstract (scripted [Some (abs_page " ")]) (str "2511.08583") 0
  = (Some [], 1, [Get (abs_url (str "2511.08583"))])
  ∧ find (by_class "div" "list-abstract") scenario_dd = None
  ∧ ∃ data,
      add_abstracts_to_html (scripted [Some (abs_page " ")]) listing_scenario 0
      = (Ok (listing_scenario, data), 1,
         [Get (abs_url (str "2511.08583")); Sleep 500]).
Proof.
  split; [vm_compute; reflexivity|]. split; [vm_compute; reflexivity|].
  eexists. vm_compute. reflexivity.
Qed.

(** When the first subjects block lies deeper in the metadata region,
    [meta_div.contents.index(subjects_div)] raises and the run ends without
    an output. *)
Lemma nested_subjects_raise :
  add_abstracts_to_html (scripted [Some (abs_page " We study robots. ")])
    listing_nested_subjects 0
  = (ValueError, 1, [Get (abs_url (str "2511.08583"))]).
Proof. vm_compute. reflexivity. Qed.

(** ** Running the driver again *)

Section rerun.
Context {W : Type} (http_get : text → W → option node * W).




End rerun.

(** A splice leaves a container in the detail element: the pair is on the
    re-entrant path from then on. *)
Lemma splice_leaves_container soup dd abstract soup' at_ :
  valid soup dd →
  is_tag (str "dd") dd.2 = true →
  splice_abstract soup dd (abstract_div abstract) = Ok (soup', at_) →
  ∃ dd', get_node soup' dd.1 = Some dd'
         ∧ is_Some (find (by_class "div" "list-abstract") (dd.1, dd')).
Proof.
  intros Hdd Htag Hs. set (new := abstract_div abstract) in *.
  assert (∃ q nm c a cs k,
            get_node dd.2 q = Some (Tag nm c a cs) ∧ k ≤ length cs
            ∧ soup' = insert_child soup (dd.1 ++ q) k new)
    as (q & nm & c & a & cs & k & Hq & Hk & ->).
  { unfold splice_abstract in Hs.
    destruct (find (by_class "div" "meta") dd) as [meta|] eqn:Hmeta.
    - destruct (find_valid _ _ _ _ Hdd Hmeta) as [Hvm (q & _ & Hpath & Hq)].
      pose proof (find_accepts _ _ _ Hmeta) as Hacc.
      destruct meta as [pm [|nm c a cs]]; [done|]. simpl in *. subst pm.
      destruct (find (by_class "div" "list-subjects") _) as [subjects|].
      + destruct (index_of cs subjects.2) as [k|] eqn:Hk; [|done].
        injection Hs as <- _. exists q, nm, c, a, cs, k.
        split; [done|]. split; [|done].
        clear -Hk. revert k Hk. induction cs as [|y l IH]; intros k; simpl; [done|].
        destruct (node_eqb y subjects.2); [intros [= <-]; lia|].
        destruct (index_of l subjects.2) as [k'|]; [|done]. simpl.
        intros [= <-]. specialize (IH k' eq_refl). lia.
      + injection Hs as <- _. exists q, nm, c, a, cs, (length cs).
        split; [done|]. split; [done|].
        by apply (append_is_insert soup (dd.1 ++ q) new (Tag nm c a cs)).
    - injection Hs as <- _. destruct dd as [pd [|nm c a cs]]; [done|]. simpl in *.
      exists [], nm, c, a, cs, (length cs).
      rewrite (right_id_L [] (++)). split; [done|]. split; [done|].
      by apply (append_is_insert soup pd new (Tag nm c a cs)). }
  assert (get_node soup (dd.1 ++ q) = Some (Tag nm c a cs)) as Hn
    by (by rewrite get_node_app, Hdd).
  pose proof (get_node_update_at soup (dd.1 ++ q)
                (λ m, set_contents (take k (contents_of m) ++ new
                                      :: drop k (contents_of m)) m) _ Hn) as Hnew.
  fold (insert_child soup (dd.1 ++ q) k new) in Hnew.
  rewrite get_node_app in Hnew.
  destruct (get_node (insert_child soup (dd.1 ++ q) k new) dd.1)
    as [dd'|] eqn:Hdd'; [|done].
  simpl in Hnew. exists dd'. split; [done|].
  destruct (find (by_class "div" "list-abstract") (dd.1, dd')) eqn:Hf; [eauto|].
  exfalso. apply find_None in Hf. rewrite Forall_forall in Hf.
  apply (Hf (dd.1 ++ (q ++ [k]), new)); [|done].
  unfold below. apply list_elem_of_fmap.
  exists (q ++ [k], new). split; [done|].
  apply elem_of_descendants. split; [by destruct q|].
  cbn [snd]. rewrite get_node_app, Hnew. simpl. by rewrite lookup_inserted.
Qed.

(** [listing_enriched] is what a first run on [listing_scenario] writes. *)
Lemma listing_enriched_is_output :
  ∃ data,
    add_abstracts_to_html (scripted [Some (abs_page " We study robots. ")])
      listing_scenario 0
    = (Ok (listing_enriched, data), 1, [Get (abs_url (str "2511.08583")); Sleep 500])
    ∧ (add_abstracts_to_html (scripted []) listing_enriched 1).1.1
      = Ok (listing_enriched, data).
Proof. eexists. split; vm_compute; reflexivity. Qed.


(** An abstract that still holds the label after [get_abstract] is read
    back without it by the second run: the two record lists differ. *)
Lemma label_inside_abstract_changes_second_run :
  ∃ soup1,
    add_abstracts_to_html (scripted [Some (abs_page " AbstrAbstract:act: of it")])
      (listing_one " A Study of Robots") 0
    = (Ok (soup1,
           [PaperData (str "A Study of Robots")
              (str "https://arxiv.org/html/2511.08583v1")
              (str "https://arxiv.org/abs/2511.08583") (str "Abstract: of it")]),
       1, [Get (abs_url (str "2511.08583")); Sleep 500])
    ∧ add_abstracts_to_html (scripted []) soup1 1
      = (Ok (soup1,
             [PaperData (str "A Study of Robots")
                (str "https://arxiv.org/html/2511.08583v1")
                (str "https://arxiv.org/abs/2511.08583") (str "of it")]),
         1, []).
Proof.
  eexists. split; [vm_compute; reflexivity|]. vm_compute. reflexivity.
Qed.

Lemma match_here_one a r x s :
  match_here ((a, One) :: r) (x :: s)
  = if atom_ok a x then S <$> match_here r s else None.
Proof.
  simpl. destruct (atom_ok a x); simpl; [|done].
  rewrite Nat.min_r by lia. simpl. rewrite drop_0. by destruct (match_here r s).
Qed.

Lemma match_here_star a s : match_here [(a, Star)] s = Some (run a s).
Proof.
  cbn [match_here qmin qmax]. rewrite decide_True by lia.
  destruct (run a s) as [|n]; simpl; by rewrite ?Nat.add_0_r.
Qed.

Lemma re_sub_go_skip r w s : re_sub_go r (length w) (w ++ s) = re_sub_go r 0 s.
Proof. induction w as [|x w IH]; simpl; [by destruct s|done]. Qed.

Lemma re_sub_go_match r x s n :
  match_here r (x :: s) = Some (S n) → re_sub_go r 0 (x :: s) = re_sub_go r n s.
Proof. intros H. simpl. by rewrite H. Qed.

(** What the second run reads in a container written by the first: the
    abstract itself, when it holds no further label. *)
Lemma container_reads_back (abstract : text) :
  stripped abstract →
  re_sub re_abstract_label abstract = abstract →
  clean_abstract (get_text (abstract_div abstract)) = abstract.
Proof.
  intros Hs Hsub. unfold clean_abstract.
  assert (re_sub re_abstract_label (get_text (abstract_div abstract)) = abstract) as ->;
    [|by apply stripped_strip].
  cbn [get_text abstract_div]. rewrite !(right_id_L [] (++)).
  rewrite <-Hsub at 2. unfold re_sub.
  assert (match_here re_abstract_label (str "Abstract:" ++ str " " ++ abstract)
          = Some 10) as Hm.
  { let r := eval vm_compute in re_abstract_label in change re_abstract_label with r.
    let l := eval vm_compute in (str "Abstract:") in change (str "Abstract:") with l.
    let l := eval vm_compute in (str " ") in change (str " ") with l.
    cbn [app].
    do 10 (rewrite match_here_one;
           match goal with
           | |- context [atom_ok ?a ?x] =>
               let b := eval vm_compute in (atom_ok a x) in
               change (atom_ok a x) with b
           end; cbv iota) || idtac.
    repeat (rewrite match_here_one;
            match goal with
            | |- context [atom_ok ?a ?x] =>
                let b := eval vm_compute in (atom_ok a x) in
                change (atom_ok a x) with b
            end; cbv iota).
    rewrite match_here_star.
    destruct Hs as [Hc _]. destruct abstract as [|c s]; [done|].
    simpl in Hc. cbn [run atom_ok]. rewrite Hc. done. }
  change (str "Abstract:" ++ str " " ++ abstract)
    with (65%N :: (str "bstract: " ++ abstract)) in Hm |- *.
  etrans; [exact (re_sub_go_match _ _ _ _ Hm)|].
  exact (re_sub_go_skip _ (str "bstract: ") abstract).
Qed.

(** ** References across insertions *)

Lemma shift_prefix q k p : p `prefix_of` q → shift q k p = p.
Proof.
  revert p. induction q as [|j q IH]; intros [|i p] Hp; simpl; try done.
  - by apply prefix_nil_inv in Hp.
  - apply prefix_cons_inv_1 in Hp as Hij. apply prefix_cons_inv_2 in Hp.
    subst. rewrite decide_True by done. by rewrite IH.
Qed.

Lemma get_node_update_at_above x p q f n :
  get_node x p = Some n →
  get_node (update_at x (p ++ q) f) p = Some (update_at n q f).
Proof.
  revert x. induction p as [|i p IH]; intros x; simpl; [by intros [= ->]|].
  destruct (contents_of x !! i) as [c|] eqn:Hi; [|done]. simpl. intros Hn.
  destruct x as [s|nm cl a cs]; [done|]. simpl in *.
  rewrite list_lookup_insert_eq by (by eapply lookup_lt_Some). simpl. by apply IH.
Qed.

(** A reference that pointed at a node of the document points at a node of
    the document after an insertion, once it is moved by [shift]. *)
Lemma shift_valid soup q k new p :
  is_Some (get_node soup p) →
  is_Some (get_node (insert_child soup q k new) (shift q k p)).
Proof.
  intros [n Hn]. destruct (decide (p `prefix_of` q)) as [[q' ->]|Hp].
  - rewrite shift_prefix by (by exists q'). unfold insert_child.
    by rewrite (get_node_update_at_above _ _ _ _ _ Hn).
  - exists n. by apply insert_child_frame.
Qed.

(** The scenario of the specification: one record, with the normalized
    title and two authors. *)
Lemma scenario_extraction :
  (get_papers_from_page (scripted [Some listing_scenario]) listing_url 0).1.1
  = [Paper (Some (str "2511.08583")) (str "A Study of Robots")
       [str "Ada Lovelace"; str "Alan Turing"]].
Proof. vm_compute. reflexivity. Qed.

Lemma splice_is_insert soup dd new soup' q k :
  valid soup dd →
  splice_abstract soup dd new = Ok (soup', (q, k)) →
  soup' = insert_child soup q k new.
Proof.
  intros Hdd. unfold splice_abstract.
  destruct (find (by_class "div" "meta") dd) as [meta|] eqn:Hmeta.
  - destruct (find_valid _ _ _ _ Hdd Hmeta) as [Hvm _].
    destruct (find (by_class "div" "list-subjects") meta) as [subjects|].
    + destruct (index_of (contents_of meta.2) subjects.2) as [i|]; [|done].
      by intros [= <- <- <-].
    + intros [= <- <- <-]. by apply append_is_insert.
  - intros [= <- <- <-]. by apply append_is_insert.
Qed.

(** The references the loop still holds stay references into the document:
    the branch of [enrich_loop] for a reference that points nowhere is never
    taken from [add_abstracts_to_html]. *)
Lemma pending_reference_survives {W} (http_get : text → W → option node * W)
    soup dt w out w' ev ins p :
  enrich_dt http_get soup dt w = (Ok out, w', ev) →
  is_Some (get_node soup (relocate ins p)) →
  is_Some (get_node (new_soup out) (relocate (ins ++ option_list (inserted out)) p)).
Proof.
  unfold enrich_dt, relocate. rewrite foldl_app. intros Hstep Hp.
  destruct (locate soup dt) as [r|] eqn:Hr; [|by injection Hstep as <- _ _].
  pose proof (locate_valid _ _ _ Hr) as Hdd.
  unfold enrich_located in Hstep.
  destruct (find (by_class "div" "list-abstract") (l_dd r));
    [by injection Hstep as <- _ _|].
  destruct (get_abstract http_get (l_id r) w) as [[a w1] ev1].
  destruct a as [[|c s]|]; try (by injection Hstep as <- _ _).
  destruct (splice_abstract soup (l_dd r) (abstract_div (c :: s)))
    as [[soup' [q k]]|] eqn:Hs; [|done].
  injection Hstep as <- _ _. simpl.
  rewrite (splice_is_insert _ _ _ _ _ _ Hdd Hs). by apply shift_valid.
Qed.

(** * Further properties of the code *)

(** ** Normalized titles *)

Lemma split_ws_go_words cur s :
  Forall (λ c, isspace c = false) cur → Forall word (split_ws_go cur s).
Proof.
  revert cur. induction s as [|c s IH]; intros cur Hcur; simpl.
  - destruct cur as [|x cur]; [constructor|].
    constructor; [by split|constructor].
  - destruct (isspace c) eqn:Hc.
    + destruct cur as [|x cur]; [by apply IH|].
      constructor; [done|]. by apply IH.
    + apply IH. apply Forall_app. split; [done|]. by repeat constructor.
Qed.

Lemma split_ws_go_app cur w s :
  Forall (λ c, isspace c = false) w →
  split_ws_go cur (w ++ s) = split_ws_go (cur ++ w) s.
Proof.
  intros Hw. revert cur. induction Hw as [|c w Hc _ IH]; intros cur; simpl.
  - by rewrite (right_id_L [] (++)).
  - rewrite Hc, IH. by rewrite <-(assoc_L (++)).
Qed.

Lemma split_ws_join ws : Forall word ws → split_ws (join (str " ") ws) = ws.
Proof.
  unfold split_ws. induction 1 as [|x ws [Hx Hnows] Hws IH]; [done|].
  destruct ws as [|y ws].
  - simpl. rewrite <-(right_id_L [] (++) x) at 1.
    rewrite split_ws_go_app by done. simpl. by destruct x.
  - change (join (str " ") (x :: y :: ws))
      with (x ++ 32%N :: join (str " ") (y :: ws)).
    rewrite split_ws_go_app by done. destruct x as [|c x]; [done|].
    cbn [app split_ws_go]. change (isspace 32%N) with true. cbv iota.
    by rewrite IH.
Qed.

Lemma normalize_idem t : normalize (normalize t) = normalize t.
Proof.
  unfold normalize. rewrite split_ws_join; [done|].
  apply split_ws_go_words. constructor.
Qed.

Lemma clean_title_normalized t : normalize (clean_title t) = clean_title t.
Proof. apply normalize_idem. Qed.

Lemma scraper_paper_title soup dt p :
  scraper_paper soup dt = Some p →
  normalize (title p) = title p ∧ 5 ≤ length (title p).
Proof.
  intros (link & dd & src & _ & _ & _ & _ & Ht & Hlong & _)%scraper_paper_spec.
  split; [|done]. rewrite Ht. apply clean_title_normalized.
Qed.

Lemma locate_title soup dt r :
  locate soup dt = Some r → normalize (l_title r) = l_title r.
Proof.
  unfold locate.
  destruct (find (by_href "a" re_abs_link) dt) as [link|]; [|done]. simpl.
  destruct (re_search re_id (get_href link.2)) as [m|]; [|done]. simpl.
  destruct (find_next_sibling soup (str "dd") dt) as [dd|]; [|done]. simpl.
  destruct (find (by_class "div" "list-title") dd) as [title_div|]; [|done]. simpl.
  intros [= <-]. apply clean_title_normalized.
Qed.

Lemma html_paper_title soup dt p :
  html_paper_of soup dt = Some p →
  normalize (hp_title p) = hp_title p ∧ 5 ≤ length (hp_title p).
Proof.
  rewrite html_paper_of_locate.
  destruct (locate soup dt) as [r|] eqn:Hr; [|done]. simpl.
  destruct (too_short (l_title r)) eqn:Hs; [done|]. intros [= <-]. simpl.
  split; [by eapply locate_title|]. by apply too_short_false.
Qed.

(** X1. Normalizing a title a second time changes nothing, and every title
    that [get_papers_from_page] and [extract_papers_from_html] emit is
    normalized: single spaces between its words, no whitespace at its
    ends. *)
Theorem titles_are_normalized {W} (http_get : text → W → option node * W)
    (url : text) (w : W) (soup : node) (t : text) :
  normalize (normalize t) = normalize t
  ∧ Forall word (split_ws t)
  ∧ Forall (λ p, normalize (title p) = title p)
           (get_papers_from_page http_get url w).1.1
  ∧ Forall (λ p, normalize (hp_title p) = hp_title p)
           (extract_papers_from_html soup).
Proof.
  split; [apply normalize_idem|]. split; [apply split_ws_go_words; constructor|].
  split.
  - unfold get_papers_from_page.
    destruct (http_get url w) as [[page|] w']; simpl; [|constructor].
    rewrite scraper_papers_omap. apply Forall_forall. intros p Hp.
    apply list_elem_of_omap in Hp as (dt & _ & Hp).
    by apply scraper_paper_title in Hp as [? _].
  - rewrite extract_papers_omap. apply Forall_forall. intros p Hp.
    apply list_elem_of_omap in Hp as (dt & _ & Hp).
    by apply html_paper_title in Hp as [? _].
Qed.

Lemma length_omap_le {A B} (f : A → option B) (l : list A) :
  length (omap f l) ≤ length l.
Proof.
  induction l as [|x l IH]; [done|].
  cbn [omap list_omap]. destruct (f x); cbn [length]; lia.
Qed.

(** X2. No record of [get_papers_from_page] or of
    [extract_papers_from_html] has a title of fewer than 5 characters, and
    neither function yields more records than the document has [dt] tags. *)
Theorem titles_have_five_characters {W} (http_get : text → W → option node * W)
    (url : text) (w : W) (soup : node) :
  Forall (λ p, 5 ≤ length (title p)) (get_papers_from_page http_get url w).1.1
  ∧ Forall (λ p, 5 ≤ length (hp_title p)) (extract_papers_from_html soup)
  ∧ length (scraper_papers soup)
    ≤ length (find_all (by_name (str "dt")) (root_of soup))
  ∧ length (extract_papers_from_html soup)
    ≤ length (find_all (by_name (str "dt")) (root_of soup)).
Proof.
  split; [|split; [|split]].
  - unfold get_papers_from_page.
    destruct (http_get url w) as [[page|] w']; simpl; [|constructor].
    rewrite scraper_papers_omap. apply Forall_forall. intros p Hp.
    apply list_elem_of_omap in Hp as (dt & _ & Hp).
    by apply scraper_paper_title in Hp as [_ ?].
  - rewrite extract_papers_omap. apply Forall_forall. intros p Hp.
    apply list_elem_of_omap in Hp as (dt & _ & Hp).
    by apply html_paper_title in Hp as [_ ?].
  - rewrite scraper_papers_omap. apply length_omap_le.
  - rewrite extract_papers_omap. apply length_omap_le.
Qed.

(** ** Links *)

Lemma occurs_nonempty r s : (∀ w, lang r w → w ≠ []) → occurs r s → s ≠ [].
Proof.
  intros Hr (u & w & v & -> & Hw) Hnil.
  apply app_eq_nil in Hnil as [_ [Hnil _]%app_eq_nil]. by apply (Hr w).
Qed.

Lemma occurs_app_l r p s : occurs r s → occurs r (p ++ s).
Proof.
  intros (u & w & v & -> & Hw). exists (p ++ u), w, v.
  by rewrite <-(assoc_L (++)).
Qed.

Lemma html_rel_nonempty w : lang re_html_rel w → w ≠ [].
Proof.
  change re_html_rel with ([(Chr 47%N, One)] ++ (lit "html/" ++ re_number)).
  intros (w1 & w2 & -> & (a & b & -> & Ha & ->) & _)%lang_app.
  apply lang_q_one in Ha as (c & -> & _). done.
Qed.

Lemma html_abs_has_rel h : occurs re_html_abs h → occurs re_html_rel h.
Proof.
  intros (u & w & v & -> & Hw).
  change re_html_abs
    with ((lit "https://arxiv" ++ [(Any, One)] ++ lit "org")
          ++ re_html_rel ++ (lit "v" ++ [(Digit, Plus)])) in Hw.
  apply lang_app in Hw as (w1 & w' & -> & _ & Hw').
  apply lang_app in Hw' as (w2 & w3 & -> & Hw2 & _).
  exists (u ++ w1), w2, (w3 ++ v). split; [|done].
  by rewrite <-!(assoc_L (++)).
Qed.

Lemma accepts_href_occurs nm r n :
  accepts (by_href nm r) n = true → occurs r (get_href n).
Proof.
  intros (h & Hh & Hm)%accepts_href. unfold get_href. rewrite Hh.
  by apply matches_re_occurs.
Qed.

(** X3. The detail-page link that lines 193-204 derive holds
    [/html/\d+\.\d+] and is not empty; a link relative to the site's root
    is completed with [https://arxiv.org]; the absolute link is taken first
    when the marker has one. *)
Theorem html_link_holds_identifier (dt : elem) (l : text) :
  html_link_of dt = Some l →
  occurs re_html_rel l ∧ l ≠ []
  ∧ (∀ tag, find (by_href "a" re_html_abs) dt = Some tag → l = get_href tag.2)
  ∧ (find (by_href "a" re_html_abs) dt = None →
     ∃ tag, find (by_href "a" re_html_rel) dt = Some tag
            ∧ l = if startswith (str "/") (get_href tag.2)
                  then str "https://arxiv.org" ++ get_href tag.2
                  else get_href tag.2).
Proof.
  unfold html_link_of. intros H.
  assert (occurs re_html_rel l) as Hocc.
  { destruct (find (by_href "a" re_html_abs) dt) as [tag|] eqn:Ha.
    - apply (inj Some) in H. subst l. apply html_abs_has_rel.
      by apply find_accepts, accepts_href_occurs in Ha.
    - destruct (find (by_href "a" re_html_rel) dt) as [tag|] eqn:Hr; [|done].
      apply find_accepts, accepts_href_occurs in Hr.
      destruct (startswith _ _); apply (inj Some) in H; subst l;
        [by apply occurs_app_l|done]. }
  split; [done|]. split; [by eapply occurs_nonempty; [apply html_rel_nonempty|]|].
  split.
  - intros tag Ht. rewrite Ht in H. by apply (inj Some) in H.
  - intros Hn. rewrite Hn in H.
    destruct (find (by_href "a" re_html_rel) dt) as [tag|]; [|done].
    exists tag. split; [done|].
    by destruct (startswith _ _); apply (inj Some) in H.
Qed.

Lemma html_link_holds_identifier_witness :
  occurs re_html_rel (str "https://arxiv.org/html/2511.08583v2")
  ∧ str "https://arxiv.org/html/2511.08583v2" ≠ []
  ∧ (∀ tag,
       find (by_href "a" re_html_abs)
         ([0], el "dt" [] None [el "a" [] (Some "/html/2511.08583v2") [txt "html"]])
       = Some tag →
       str "https://arxiv.org/html/2511.08583v2" = get_href tag.2)
  ∧ (find (by_href "a" re_html_abs)
       ([0], el "dt" [] None [el "a" [] (Some "/html/2511.08583v2") [txt "html"]])
     = None →
     ∃ tag,
       find (by_href "a" re_html_rel)
         ([0], el "dt" [] None [el "a" [] (Some "/html/2511.08583v2") [txt "html"]])
       = Some tag
       ∧ str "https://arxiv.org/html/2511.08583v2"
         = if startswith (str "/") (get_href tag.2)
           then str "https://arxiv.org" ++ get_href tag.2
           else get_href tag.2).
Proof.
  apply (html_link_holds_identifier
           ([0], el "dt" [] None [el "a" [] (Some "/html/2511.08583v2") [txt "html"]])).
  vm_compute. reflexivity.
Defined.

(** ** The abstract page *)

(** X4. [get_abstract] makes one request, to the abstract page of the
    identifier; it returns [None] when the request fails; an abstract it
    returns has no whitespace at its ends. *)
Theorem get_abstract_result {W} (http_get : text → W → option node * W)
    (id : text) (w : W) :
  (get_abstract http_get id w).2 = [Get (abs_url id)]
  ∧ (get_abstract http_get id w).1.2 = (http_get (abs_url id) w).2
  ∧ ((http_get (abs_url id) w).1 = None → (get_abstract http_get id w).1.1 = None)
  ∧ (∀ a, (get_abstract http_get id w).1.1 = Some a → strip a = a).
Proof.
  unfold get_abstract. destruct (http_get (abs_url id) w) as [[page|] w']; simpl.
  - repeat split; [done|].
    intros a. destruct (find (by_class "blockquote" "abstract") (root_of page)).
    + intros [= <-]. apply stripped_strip, strip_stripped.
    + destruct (find _ (root_of page)); [|done].
      intros [= <-]. apply stripped_strip, strip_stripped.
  - repeat split; done.
Qed.

(** ** Invariants of the driver *)

Lemma locate_id soup dt r : locate soup dt = Some r → number_like (l_id r).
Proof.
  unfold locate.
  destruct (find (by_href "a" re_abs_link) dt) as [link|] eqn:Hl; [|done]. simpl.
  destruct (found_link_has_id _ _ Hl) as (m & Hm & Hn). rewrite Hm. simpl.
  destruct (find_next_sibling soup (str "dd") dt) as [dd|]; [|done]. simpl.
  destruct (find (by_class "div" "list-title") dd) as [title_div|]; [|done]. simpl.
  by intros [= <-].
Qed.

Section driver_invariants.
Context {W : Type} (http_get : text → W → option node * W).

(** An invariant of the loop: [I] holds of the state after every iteration
    that does not raise, [E] of the world and the log when one raises. *)
Lemma enrich_loop_invariant
    (I : node → list paper_data → W → list event → Prop)
    (E : W → list event → Prop) :
  (∀ soup dt w out w' ev data log,
     I soup data w log →
     enrich_dt http_get soup dt w = (Ok out, w', ev) →
     I (new_soup out) (data ++ option_list (emitted out)) w' (log ++ ev)) →
  (∀ soup dt w w' ev data log,
     I soup data w log →
     enrich_dt http_get soup dt w = (ValueError, w', ev) →
     E w' (log ++ ev)) →
  ∀ dts ins soup data w log,
    I soup data w log →
    match enrich_loop http_get dts ins soup data w log with
    | (Ok (soup', data'), w', log') => I soup' data' w' log'
    | (ValueError, w', log') => E w' log'
    end.
Proof.
  intros Hok Herr dts. induction dts as [|p dts IH]; intros ins soup data w log HI.
  - done.
  - simpl. destruct (get_node soup (relocate ins p)) as [dt|]; [|by apply IH].
    destruct (enrich_dt http_get soup (relocate ins p, dt) w) as [[[out|] w'] ev] eqn:He.
    + apply IH. by eapply Hok.
    + by eapply Herr.
Qed.

Lemma enrich_dt_events soup dt w res w' ev :
  enrich_dt http_get soup dt w = (res, w', ev) →
  match res with
  | Ok out =>
      (ev = [] ∧ (emitted out = None → new_soup out = soup))
      ∨ ∃ id, number_like id ∧ ev = [Get (abs_url id); Sleep 500]
              ∧ is_Some (emitted out)
  | ValueError => ∃ id, number_like id ∧ ev = [Get (abs_url id)]
  end.
Proof.
  unfold enrich_dt.
  destruct (locate soup dt) as [r|] eqn:Hr; [|intros [= <- _ <-]; by left].
  pose proof (locate_id _ _ _ Hr) as Hid. unfold enrich_located.
  destruct (find (by_class "div" "list-abstract") (l_dd r));
    [intros [= <- _ <-]; by left|].
  pose proof (get_abstract_result http_get (l_id r) w) as (Hlog & _).
  destruct (get_abstract http_get (l_id r) w) as [[a w1] ev1]. simpl in Hlog.
  subst ev1. destruct a as [[|c s]|].
  - intros [= <- _ <-]. right. exists (l_id r). eauto.
  - destruct (splice_abstract _ _ _) as [[soup' at_]|].
    + intros [= <- _ <-]. right. exists (l_id r). eauto.
    + intros [= <- _ <-]. by exists (l_id r).
  - intros [= <- _ <-]. right. exists (l_id r). eauto.
Qed.

(** X5. Every request of the driver goes to the abstract page of an
    identifier of the form [\d+\.\d+] and is followed by a pause of half a
    second before anything else is requested; there are no more requests
    than records.  When the run ends with the [ValueError] of line 235, the
    log ends with the request that preceded it. *)
Theorem driver_pauses_after_requests (soup : node) (w : W) :
  match add_abstracts_to_html http_get soup w with
  | (Ok (_, data), _, log) =>
      ∃ ids, Forall number_like ids ∧ log = fetch_trace ids
             ∧ length ids ≤ length data
  | (ValueError, _, log) =>
      ∃ ids id, Forall number_like ids ∧ number_like id
                ∧ log = fetch_trace ids ++ [Get (abs_url id)]
  end.
Proof.
  unfold add_abstracts_to_html.
  apply (enrich_loop_invariant
           (λ _ data _ log, ∃ ids, Forall number_like ids ∧ log = fetch_trace ids
                                   ∧ length ids ≤ length data)
           (λ _ log, ∃ ids id, Forall number_like ids ∧ number_like id
                               ∧ log = fetch_trace ids ++ [Get (abs_url id)])).
  - intros soup0 dt w0 out w' ev data log (ids & Hids & -> & Hlen) He.
    apply enrich_dt_events in He as [[-> _]|(id & Hid & -> & [d Hd])].
    + exists ids. rewrite (right_id_L [] (++)), length_app. split; [done|].
      split; [done|]. lia.
    + exists (ids ++ [id]). split; [apply Forall_app; by repeat constructor|].
      split.
      * unfold fetch_trace. by rewrite fmap_app, join_app.
      * rewrite Hd, !length_app. simpl. lia.
  - intros soup0 dt w0 w' ev data log (ids & Hids & -> & Hlen) He.
    apply enrich_dt_events in He as (id & Hid & ->). by exists ids, id.
  - exists []. by repeat split.
Qed.

Lemma enrich_dt_links soup dt w out w' ev d :
  enrich_dt http_get soup dt w = (Ok out, w', ev) →
  emitted out = Some d →
  pd_html_link d ≠ [] ∧ ∃ id, number_like id ∧ pd_abs_link d = abs_url id.
Proof.
  unfold enrich_dt.
  destruct (locate soup dt) as [r|] eqn:Hr; [|by intros [= <- _ _] [=]].
  pose proof (locate_id _ _ _ Hr) as Hid.
  assert (∀ a, let d := make_paper_data (l_id r) (l_title r) (l_html_link r) a in
               pd_html_link d ≠ [] ∧ ∃ id, number_like id ∧ pd_abs_link d = abs_url id)
    as Hd.
  { intros a. simpl. split; [|by exists (l_id r)].
    by destruct (l_html_link r) as [[|??]|]. }
  unfold enrich_located.
  destruct (find (by_class "div" "list-abstract") (l_dd r)).
  - intros [= <- _ _] [= <-]. apply Hd.
  - destruct (get_abstract http_get (l_id r) w) as [[a w1] ev1].
    destruct a as [[|c s]|].
    + intros [= <- _ _] [= <-]. apply Hd.
    + destruct (splice_abstract _ _ _) as [[soup' at_]|]; [|done].
      intros [= <- _ _] [= <-]. apply Hd.
    + intros [= <- _ _] [= <-]. apply Hd.
Qed.

Lemma link_lines_in_block i d :
  pd_html_link d ≠ [] →
  html_link_line d ∈ txt_block i d ∧ abs_link_line d ∈ txt_block i d.
Proof.
  intros Hl. unfold txt_block, html_link_line, abs_link_line.
  destruct (pd_html_link d) as [|c l]; [done|].
  rewrite !elem_of_app, !elem_of_cons. split.
  - right. left. by left.
  - right. right. by left.
Qed.

(** X6. Every record the driver reports has a detail-page link that is not
    empty and the abstract-page link of an identifier of the form
    [\d+\.\d+]; [save_to_txt] writes both links for it. *)
Theorem driver_records_have_links (soup : node) (w : W) (now : text) :
  match add_abstracts_to_html http_get soup w with
  | (Ok (_, data), _, _) =>
      Forall (λ d, pd_html_link d ≠ []
                   ∧ (∃ id, number_like id ∧ pd_abs_link d = abs_url id)
                   ∧ html_link_line d ∈ save_to_txt now data
                   ∧ abs_link_line d ∈ save_to_txt now data) data
  | (ValueError, _, _) => True
  end.
Proof.
  pose proof (enrich_loop_invariant
                (λ _ data _ _,
                   Forall (λ d, pd_html_link d ≠ []
                                ∧ ∃ id, number_like id ∧ pd_abs_link d = abs_url id)
                          data)
                (λ _ _, True)) as Hinv.
  unfold add_abstracts_to_html.
  specialize (Hinv
    ltac:(intros soup0 dt w0 out w' ev data log Hdata He;
          apply Forall_app; split; [done|];
          destruct (emitted out) as [d|] eqn:Hd; [|constructor];
          repeat constructor; by eapply enrich_dt_links)
    ltac:(done)
    (fst <$> find_all (by_name (str "dt")) (root_of soup)) [] soup [] w []
    ltac:(constructor)).
  destruct (enrich_loop _ _ _ _ _ _ _) as [[[[soup' data]|] w'] log]; [|done].
  apply Forall_forall. intros d Hd. rewrite Forall_forall in Hinv.
  destruct (Hinv d Hd) as [Hl Hid]. split; [done|]. split; [done|].
  apply list_elem_of_lookup in Hd as [i Hi].
  destruct (link_lines_in_block (S i) d Hl) as [H1 H2].
  assert (txt_block (S i) d ∈ imap (λ i paper, txt_block (S i) paper) data) as Hb
    by (by apply (elem_of_lookup_imap_2 (λ i paper, txt_block (S i) paper) _ _ i)).
  unfold save_to_txt. rewrite !elem_of_app.
  split; right; apply list_elem_of_join; eauto.
Qed.

Lemma enrich_dt_offline soup dt w :
  (∀ url w, (http_get url w).1 = None) →
  ∃ w' ev, enrich_dt http_get soup dt w
           = (Ok (StepOut soup None (offline_record soup dt)), w', ev).
Proof.
  intros Hdown. unfold enrich_dt, offline_record.
  destruct (locate soup dt) as [r|]; [|by eauto]. simpl. unfold enrich_located.
  destruct (find (by_class "div" "list-abstract") (l_dd r)); [by eauto|].
  pose proof (get_abstract_result http_get (l_id r) w) as (_ & _ & Hnone & _).
  specialize (Hnone (Hdown _ _)).
  destruct (get_abstract http_get (l_id r) w) as [[a w1] ev1]. simpl in Hnone.
  subst a. by eauto.
Qed.

Lemma enrich_loop_offline soup (dts : list elem) data w log :
  (∀ url w, (http_get url w).1 = None) →
  (∀ dt, dt ∈ dts → valid soup dt) →
  ∃ w' log',
    enrich_loop http_get (fst <$> dts) [] soup data w log
    = (Ok (soup, data ++ omap (offline_record soup) dts), w', log').
Proof.
  intros Hdown. revert data w log.
  induction dts as [|[p n] dts IH]; intros data w log Hvalid; simpl.
  - rewrite (right_id_L [] (++)). eauto.
  - pose proof (Hvalid (p, n) ltac:(left)) as Hv. unfold valid in Hv. simpl in Hv.
    rewrite Hv. destruct (enrich_dt_offline soup (p, n) w Hdown) as (w1 & ev1 & ->).
    simpl.
    destruct (IH (data ++ option_list (offline_record soup (p, n))) w1 (log ++ ev1))
      as (w' & log' & Heq); [intros dt Hdt; apply Hvalid; by right|].
    exists w', log'. etrans; [exact Heq|].
    destruct (offline_record soup (p, n)); simpl;
      by rewrite <-?(assoc_L (++)), ?(right_id_L [] (++)).
Qed.

(** X7. When every request fails, the driver does not raise and writes the
    document back as it read it; it reports every located pair, with the
    abstract of the container the pair already has, else with the
    placeholder. *)
Theorem driver_without_network (soup : node) (w : W) :
  (∀ url w, (http_get url w).1 = None) →
  ∃ w' log,
    add_abstracts_to_html http_get soup w
    = (Ok (soup, omap (offline_record soup)
                   (find_all (by_name (str "dt")) (root_of soup))), w', log).
Proof.
  intros Hdown. unfold add_abstracts_to_html.
  destruct (enrich_loop_offline soup
              (find_all (by_name (str "dt")) (root_of soup)) [] w [] Hdown)
    as (w' & log & ->); [intros dt; apply find_all_valid|].
  eauto.
Qed.
End driver_invariants.

Lemma driver_without_network_witness :
  ∃ w' log,
    add_abstracts_to_html (scripted []) listing_scenario 0
    = (Ok (listing_scenario,
           omap (offline_record listing_scenario)
             (find_all (by_name (str "dt")) (root_of listing_scenario))), w', log).
Proof.
  apply (driver_without_network (scripted []) listing_scenario 0).
  intros url w. reflexivity.
Defined.

(** ** The page loop and the report of the listing scraper *)

Lemma str_inj : Inj (=) (=) str.
Proof.
  intros s1 s2 H. unfold str in H.
  assert (Inj (=) (=) N_of_ascii) as Hinj.
  { intros a b Hab. by rewrite <-(ascii_N_embedding a), Hab, ascii_N_embedding. }
  apply (inj (fmap N_of_ascii)) in H.
  by rewrite <-(string_of_list_ascii_of_string s1), H,
    string_of_list_ascii_of_string.
Qed.

Lemma dec_inj : Inj (=) (=) dec.
Proof. intros a b H. unfold dec in H. by apply str_inj, (inj pretty) in H. Qed.

Lemma page_url_inj base : Inj (=) (=) (page_url base).
Proof.
  intros a b. unfold page_url.
  destruct (decide (a = 0)) as [->|Ha], (decide (b = 0)) as [->|Hb]; [done|..].
  - intros H%(f_equal length). rewrite !length_app in H.
    change (length (str "?skip=")) with 6 in H. lia.
  - intros H%(f_equal length). rewrite !length_app in H.
    change (length (str "?skip=")) with 6 in H. lia.
  - intros H. do 2 apply app_inv_head in H.
    by apply app_inv_tail, dec_inj in H.
Qed.

Section pagination.
Context {W : Type} (http_get : text → W → option node * W).

Lemma scrape_loop_full_pages base :
  (∀ i w, 50 ≤ length (get_papers_from_page http_get
                         (page_url base (50 * i)) w).1.1) →
  ∀ fuel i acc w log,
    scrape_loop http_get fuel base (50 * i) acc w log = None.
Proof.
  intros Hfull. induction fuel as [|fuel IH]; intros i acc w log; [done|].
  cbn [scrape_loop]. specialize (Hfull i w).
  destruct (get_papers_from_page http_get (page_url base (50 * i)) w)
    as [[papers w1] ev].
  cbn [fst] in Hfull. destruct papers as [|p papers]; [simpl in Hfull; lia|].
  destruct (decide (length (p :: papers) < 50)) as [?|_]; [lia|].
  replace (50 * i + 50) with (50 * S i) by lia. apply IH.
Qed.

(** X8. A listing that answers every page request with fifty records or
    more keeps the [while True] loop of [scrape_all_papers] running: no
    number of iterations reaches a [break], so neither [scrape_all_papers]
    nor [main] returns. *)
Theorem full_pages_never_end (base : text)
    (Hfull : ∀ i w, 50 ≤ length (get_papers_from_page http_get
                                   (page_url base (50 * i)) w).1.1) :
  ∀ fuel w, scrape_all_papers http_get fuel base w = None.
Proof.
  intros fuel w. unfold scrape_all_papers.
  apply (scrape_loop_full_pages base Hfull fuel 0).
Qed.

(** X9. When the listing ends after finitely many pages, the page loop
    requests the base URL first and then the offsets 50, 100, ... in
    order, and it never requests the same URL twice. *)
Theorem pages_requested_once (base : text) (w : W) (pages : list (list paper))
    (w' : W) (fuel : nat)
    (Hserved : served http_get base 0 w pages w')
    (Hfuel : length pages ≤ fuel) :
  ∃ log, scrape_all_papers http_get fuel base w = Some (concat pages, w', log)
         ∧ requests log = (λ i, page_url base (50 * i)) <$> seq 0 (length pages)
         ∧ head (requests log) = Some base
         ∧ NoDup (requests log).
Proof.
  exists (page_trace base 0 (length pages)).
  assert (requests (page_trace base 0 (length pages))
          = (λ i, page_url base (50 * i)) <$> seq 0 (length pages)) as Hreq.
  { by rewrite requests_page_trace. }
  split; [|split; [done|split]].
  - unfold scrape_all_papers.
    by rewrite (scrape_loop_served http_get base 0 w pages w' Hserved fuel [] []).
  - rewrite Hreq. inversion Hserved; done.
  - rewrite Hreq. apply NoDup_fmap_2_strong; [|apply NoDup_seq].
    intros i j _ _ H. apply page_url_inj in H. lia.
Qed.

Lemma scrape_loop_Forall (P : paper → Prop) base :
  (∀ url w, Forall P (get_papers_from_page http_get url w).1.1) →
  ∀ fuel skip acc w log all w' log',
    Forall P acc →
    scrape_loop http_get fuel base skip acc w log = Some (all, w', log') →
    Forall P all.
Proof.
  intros Hpage. induction fuel as [|fuel IH];
    intros skip acc w log all w' log' Hacc; [done|].
  cbn [scrape_loop]. specialize (Hpage (page_url base skip) w).
  destruct (get_papers_from_page http_get (page_url base skip) w)
    as [[papers w1] ev].
  cbn [fst] in Hpage. destruct papers as [|p papers]; [by intros [= <- _ _]|].
  destruct (decide (length (p :: papers) < 50)) as [_|_].
  - intros [= <- _ _]. by apply Forall_app.
  - apply IH. by apply Forall_app.
Qed.

Lemma get_papers_Forall (P : paper → Prop) :
  (∀ soup dt p, scraper_paper soup dt = Some p → P p) →
  ∀ url w, Forall P (get_papers_from_page http_get url w).1.1.
Proof.
  intros HP url w. unfold get_papers_from_page.
  destruct (http_get url w) as [[soup|] w1]; [|by constructor].
  cbn [fst]. rewrite scraper_papers_omap, Forall_forall.
  intros p (dt & _ & Hp)%list_elem_of_omap. by eapply HP.
Qed.
End pagination.

Lemma full_pages_never_end_witness :
  scrape_all_papers (λ (_ : text) (w : ()), (Some full_page, w)) 7
    listing_url () = None.
Proof.
  apply (full_pages_never_end (λ (_ : text) (w : ()), (Some full_page, w))
           listing_url).
  intros i w. unfold get_papers_from_page. cbn [fst].
  vm_compute. done.
Defined.

Lemma pages_requested_once_witness :
  ∃ log, scrape_all_papers (scripted [Some full_page; Some listing_scenario]) 2
           listing_url 0
         = Some (concat [scraper_papers full_page; scraper_papers listing_scenario],
                 2, log)
         ∧ requests log
           = (λ i, page_url listing_url (50 * i)) <$> seq 0 2
         ∧ head (requests log) = Some listing_url
         ∧ NoDup (requests log).
Proof.
  apply (pages_requested_once (scripted [Some full_page; Some listing_scenario])
           listing_url 0
           [scraper_papers full_page; scraper_papers listing_scenario] 2 2).
  - eapply served_full; [reflexivity|vm_compute; lia|].
    eapply served_last; [reflexivity|vm_compute; lia].
  - simpl. lia.
Defined.

Lemma et_al_authors_line l : et_al ∈ authors_line l ↔ 3 < length l.
Proof.
  unfold authors_line. destruct l as [|a l]; [simpl; split; [by intros ?%elem_of_nil|lia]|].
  destruct (decide (3 < length (a :: l))) as [H|H].
  - split; [done|]. intros _. set_solver.
  - split; [|done]. rewrite (left_id_L [] (++)).
    intros [He|He]%elem_of_app; apply list_elem_of_singleton in He; discriminate He.
Qed.

Lemma block_in_report now papers i p :
  papers !! i = Some p → paper_block (S i) p ⊆ save_papers_txt now papers.
Proof.
  intros Hi x Hx. unfold save_papers_txt. apply elem_of_app. right.
  apply list_elem_of_join. exists (paper_block (S i) p). split; [done|].
  by apply (elem_of_lookup_imap_2 (λ i p, paper_block (S i) p)).
Qed.

Lemma hd_pretty_N_go (c : Ascii.ascii) (x : N) (s : string) :
  (∀ d, pretty_N_char d ≠ c) →
  match s with String a _ => a ≠ c | EmptyString => True end →
  match pretty_N_go x s with String a _ => a ≠ c | EmptyString => True end.
Proof.
  intros Hc. revert s. induction (N.lt_wf_0 x) as [x _ IH]. intros s Hs.
  destruct (decide (x = 0%N)) as [->|Hx]; [by rewrite pretty_N_go_0|].
  rewrite pretty_N_go_step by lia. apply IH; [|apply Hc].
  apply N.div_lt; lia.
Qed.

(** The decimal form of a number does not start with a space. *)
Lemma dec_head n : head (dec n) ≠ Some 32%N.
Proof.
  assert (match pretty n with
          | String a _ => a ≠ " "%char
          | EmptyString => True
          end) as H.
  { unfold pretty, pretty_nat, pretty, pretty_N.
    destruct (decide (N.of_nat n = 0%N)); [done|].
    apply hd_pretty_N_go; [|done].
    intros d. unfold pretty_N_char. by repeat case_match. }
  unfold dec, str. destruct (pretty n) as [|a s]; [done|]. simpl.
  intros [= Ha]. apply H.
  rewrite <-(ascii_N_embedding a), Ha. done.
Qed.

Lemma join_holds sep (l : list text) a :
  a ∈ l → ∃ u v, join sep l = u ++ a ++ v.
Proof.
  induction l as [|x l IH]; [by intros ?%elem_of_nil|].
  intros [->|Ha]%elem_of_cons.
  - destruct l as [|y l].
    + exists [], []. by rewrite (right_id_L [] (++)).
    + exists [], (sep ++ join sep (y :: l)). done.
  - destruct (IH Ha) as (u & v & Hj). destruct l as [|y l]; [by apply elem_of_nil in Ha|].
    exists (x ++ sep ++ u), v.
    change (join sep (x :: y :: l)) with (x ++ sep ++ join sep (y :: l)).
    by rewrite Hj, <-!(assoc_L (++)).
Qed.

(** X10. The report of [save_papers] names the first three authors of a
    record: for a record with authors, the strings written for it hold the
    line made of the label and its first three authors joined by a comma and
    a space, so each of these names is written; the mark for further authors
    is written exactly when the record has more than three; for a record
    without authors no string that starts with the label is written. *)
Theorem report_shows_three_authors (now : text) (papers : list paper)
    (i : nat) (p : paper) (Hp : papers !! i = Some p) :
  paper_block (S i) p ⊆ save_papers_txt now papers
  ∧ (authors p ≠ [] →
     [32; 32; 32; 20316; 32773; 58; 32]%N ++ join (str ", ") (take 3 (authors p))
     ∈ paper_block (S i) p)
  ∧ (∀ a, a ∈ take 3 (authors p) →
       ∃ line u v, line ∈ save_papers_txt now papers
                   ∧ line = [32; 32; 32; 20316; 32773; 58; 32]%N ++ u ++ a ++ v)
  ∧ (et_al ∈ paper_block (S i) p ↔ 3 < length (authors p))
  ∧ (authors p = [] →
     Forall (λ line, ¬ [32; 32; 32; 20316; 32773; 58; 32]%N `prefix_of` line)
            (paper_block (S i) p)).
Proof.
  pose proof (block_in_report now papers i p Hp) as Hblock.
  assert (authors p ≠ [] →
          [32; 32; 32; 20316; 32773; 58; 32]%N
            ++ join (str ", ") (take 3 (authors p)) ∈ paper_block (S i) p) as Hline.
  { intros Hne. unfold paper_block, authors_line.
    destruct (authors p) as [|a l]; [done|]. set_solver. }
  split; [done|]. split; [done|]. split; [|split].
  - intros a Ha.
    destruct (join_holds (str ", ") (take 3 (authors p)) a Ha) as (u & v & Hj).
    exists ([32; 32; 32; 20316; 32773; 58; 32]%N
              ++ join (str ", ") (take 3 (authors p))), u, v.
    split; [|by rewrite Hj]. apply Hblock, Hline.
    intros Hnil. rewrite Hnil in Ha. by apply elem_of_nil in Ha.
  - rewrite <-et_al_authors_line. unfold paper_block. split; [|set_solver].
    intros [He|[He|[He|He]%elem_of_app]%elem_of_app]%elem_of_app; [..|done|].
    + apply list_elem_of_singleton, (f_equal last) in He.
      rewrite !(assoc_L (++)), last_snoc in He. discriminate He.
    + destruct (arxiv_id p) as [[|c s]|]; [by apply elem_of_nil in He|
                                           |by apply elem_of_nil in He].
      apply list_elem_of_singleton, (f_equal last) in He.
      rewrite !(assoc_L (++)), last_snoc in He. discriminate He.
    + apply list_elem_of_singleton in He. discriminate He.
  - intros Hnil. unfold paper_block. rewrite Hnil. cbn [authors_line].
    rewrite (left_id_L [] (++)). rewrite !Forall_app. split; [|split].
    + repeat constructor. intros [t Ht].
      pose proof (dec_head (S i)) as Hd.
      destruct (dec (S i)) as [|c s]; [discriminate Ht|].
      injection Ht as -> _. done.
    + destruct (arxiv_id p) as [[|c s]|]; [constructor| |constructor].
      repeat constructor. intros [t Ht]. discriminate Ht.
    + repeat constructor. intros [t Ht]. discriminate Ht.
Qed.

Lemma report_shows_three_authors_witness :
  let p := Paper (Some (str "2511.08583")) (str "A Study of Robots")
             [str "Ada"; str "Alan"; str "Grace"; str "Edsger"] in
  let now := str "2025-11-12 10:00:00" in
  paper_block 1 p ⊆ save_papers_txt now [p]
  ∧ (authors p ≠ [] →
     [32; 32; 32; 20316; 32773; 58; 32]%N ++ join (str ", ") (take 3 (authors p))
     ∈ paper_block 1 p)
  ∧ (∀ a, a ∈ take 3 (authors p) →
       ∃ line u v, line ∈ save_papers_txt now [p]
                   ∧ line = [32; 32; 32; 20316; 32773; 58; 32]%N ++ u ++ a ++ v)
  ∧ (et_al ∈ paper_block 1 p ↔ 3 < length (authors p))
  ∧ (authors p = [] →
     Forall (λ line, ¬ [32; 32; 32; 20316; 32773; 58; 32]%N `prefix_of` line)
            (paper_block 1 p)).
Proof.
  intros p now. apply (report_shows_three_authors now [p] 0 p). reflexivity.
Defined.

Section scraper_main_facts.
Context {W : Type} (http_get : text → W → option node * W).

(** X11. [main] of the listing scraper writes the report only when the
    page loop found a record.  When it writes, the report has a numbered
    title line for every record, in the order of the loop, and an
    identifier line for every record: [get_papers_from_page] always fills
    the identifier, so the test of line 190 never skips the line. *)
Theorem scraper_main_report (fuel : nat) (now : text) (w : W)
    (out : option (list text)) (w' : W) (log : list event)
    (Hrun : scraper_main http_get fuel now w = Some (out, w', log)) :
  ∃ papers,
    scrape_all_papers http_get fuel listing_url w = Some (papers, w', log)
    ∧ (papers = [] → out = None)
    ∧ (papers ≠ [] →
       ∃ lines, out = Some lines
         ∧ ∀ i p, papers !! i = Some p →
             dec (S i) ++ str ". " ++ title p ++ [10%N] ∈ lines
             ∧ ∃ id, arxiv_id p = Some id ∧ number_like id
                     ∧ str "   arXiv ID: " ++ id ++ [10%N] ∈ lines).
Proof.
  unfold scraper_main in Hrun.
  destruct (scrape_all_papers http_get fuel listing_url w)
    as [[[papers w1] log1]|] eqn:Hs; [|done].
  injection Hrun as <- <- <-. exists papers. split; [done|].
  split; [by intros ->|]. intros Hne.
  exists (save_papers_txt now papers). split; [by destruct papers|].
  intros i p Hi.
  assert (Forall (λ p, ∃ id, arxiv_id p = Some id ∧ number_like id) papers)
    as Hids.
  { eapply (scrape_loop_Forall http_get _ listing_url); [|constructor|exact Hs].
    apply get_papers_Forall. intros soup dt q. apply scraper_paper_id. }
  pose proof (block_in_report now papers i p Hi) as Hblock.
  split; [apply Hblock; unfold paper_block; set_solver|].
  rewrite Forall_lookup in Hids. destruct (Hids i p Hi) as (id & Hid & Hnum).
  exists id. split; [done|]. split; [done|]. apply Hblock.
  unfold paper_block. rewrite Hid.
  destruct id as [|c s].
  - destruct Hnum as (a & b & Hab & _). by destruct a.
  - set_solver.
Qed.
End scraper_main_facts.

Lemma scraper_main_report_witness :
  ∃ papers,
    scrape_all_papers (scripted [Some listing_scenario]) 1 listing_url 0
    = Some (papers, 1, [Get listing_url])
    ∧ (papers = [] → Some (save_papers_txt (str "2025-11-12 10:00:00")
                             (scraper_papers listing_scenario)) = None)
    ∧ (papers ≠ [] →
       ∃ lines, Some (save_papers_txt (str "2025-11-12 10:00:00")
                        (scraper_papers listing_scenario)) = Some lines
         ∧ ∀ i p, papers !! i = Some p →
             dec (S i) ++ str ". " ++ title p ++ [10%N] ∈ lines
             ∧ ∃ id, arxiv_id p = Some id ∧ number_like id
                     ∧ str "   arXiv ID: " ++ id ++ [10%N] ∈ lines).
Proof.
  apply (scraper_main_report (scripted [Some listing_scenario]) 1
           (str "2025-11-12 10:00:00") 0).
  vm_compute. reflexivity.
Defined.

(** ** The two extractors on one document *)

Lemma html_paper_scraper soup dt hp :
  html_paper_of soup dt = Some hp →
  ∃ p, scraper_paper soup dt = Some p
       ∧ arxiv_id p = Some (hp_arxiv_id hp) ∧ title p = hp_title hp.
Proof.
  unfold html_paper_of, scraper_paper, scraper_title.
  destruct (find (by_href "a" re_abs_link) dt) as [link|]; [|done]. simpl.
  destruct (re_search re_id (get_href link.2)) as [m|]; [|done]. simpl.
  destruct (find_next_sibling soup (str "dd") dt) as [dd|]; [|done]. simpl.
  destruct (find (by_class "div" "list-title") dd) as [title_div|]; [|done]. simpl.
  destruct (too_short (clean_title (get_text title_div.2))); [done|].
  intros [= <-]. eexists. split; [done|]. done.
Qed.

Lemma omap_sublist {A B C D} (f : A → option B) (g : A → option C)
    (h : B → D) (k : C → D) (l : list A) :
  (∀ x y, f x = Some y → ∃ z, g x = Some z ∧ h y = k z) →
  (h <$> omap f l) `sublist_of` (k <$> omap g l).
Proof.
  intros Hfg. induction l as [|x l IH]; [done|].
  cbn [omap list_omap]. destruct (f x) as [y|] eqn:Hf.
  - destruct (Hfg x y Hf) as (z & -> & Hyz). cbn [fmap list_fmap].
    rewrite Hyz. by apply sublist_skip.
  - destruct (g x) as [z|]; [|done]. cbn [fmap list_fmap]. by apply sublist_cons.
Qed.

(** X12. On one document, the records of [extract_papers_from_html] are
    records of [get_papers_from_page]: their identifiers and titles, in
    order, are a sublist of those of the listing scraper, which has the
    fallback lookup of the title in addition. *)
Theorem extractor_records_are_scraper_records (soup : node) :
  ((λ hp, (Some (hp_arxiv_id hp), hp_title hp)) <$> extract_papers_from_html soup)
    `sublist_of` ((λ p, (arxiv_id p, title p)) <$> scraper_papers soup)
  ∧ length (extract_papers_from_html soup) ≤ length (scraper_papers soup).
Proof.
  assert (((λ hp, (Some (hp_arxiv_id hp), hp_title hp))
             <$> extract_papers_from_html soup)
          `sublist_of` ((λ p, (arxiv_id p, title p)) <$> scraper_papers soup))
    as Hsub.
  { rewrite extract_papers_omap, scraper_papers_omap. apply omap_sublist.
    intros dt hp (p & Hp & Hid & Ht)%html_paper_scraper.
    exists p. by rewrite Hid, Ht. }
  split; [done|]. apply sublist_length in Hsub. by rewrite !length_fmap in Hsub.
Qed.

(** ** What a first pass leaves for the second *)

Lemma locate_detail soup dt r :
  locate soup dt = Some r → is_tag (str "dd") (l_dd r).2 = true.
Proof.
  unfold locate.
  destruct (find (by_href "a" re_abs_link) dt) as [link|]; [|done]. simpl.
  destruct (re_search re_id (get_href link.2)) as [m|]; [|done]. simpl.
  destruct (find_next_sibling soup (str "dd") dt) as [dd|] eqn:Hdd; [|done]. simpl.
  destruct (find (by_class "div" "list-title") dd) as [title_div|]; [|done]. simpl.
  intros [= <-]. simpl.
  unfold find_next_sibling in Hdd.
  apply head_Some_elem_of, list_elem_of_filter in Hdd as [Hdd _].
  by destruct (is_tag (str "dd") dd.2).
Qed.

Section first_pass.
Context {W : Type} (http_get : text → W → option node * W).

(** X13. The container that the driver builds for a fetched abstract reads
    back as that abstract on the re-entrant path, whenever the abstract
    holds no further label: [get_abstract] has stripped it already. *)
Theorem fetched_abstract_reads_back (id : text) (w : W) (a : text)
    (Hget : (get_abstract http_get id w).1.1 = Some a)
    (Hlabel : re_sub re_abstract_label a = a) :
  clean_abstract (get_text (abstract_div a)) = a.
Proof.
  apply container_reads_back; [|done].
  unfold get_abstract in Hget.
  destruct (http_get (abs_url id) w) as [[page|] w1]; [|done]. simpl in Hget.
  destruct (find (by_class "blockquote" "abstract") (root_of page)).
  - injection Hget as <-. apply strip_stripped.
  - destruct (find _ (root_of page)); [|done].
    injection Hget as <-. apply strip_stripped.
Qed.

(** X14. A pair into which the driver has inserted a container is on the
    re-entrant path from then on: in the new document its detail element
    holds an abstract container, and processing it again makes no request
    and changes neither the document nor the world. *)
Theorem inserted_pair_is_reentrant (soup : node) (dt : elem) (r : located)
    (w : W) (out : step_out) (w' : W) (ev : list event) (at_ : path * nat)
    (Hr : locate soup dt = Some r)
    (Hrun : enrich_located http_get soup r w = (Ok out, w', ev))
    (Hins : inserted out = Some at_) :
  ∃ dd', get_node (new_soup out) (l_dd r).1 = Some dd'
    ∧ is_Some (find (by_class "div" "list-abstract") ((l_dd r).1, dd'))
    ∧ ∀ w2, ∃ d,
        enrich_located http_get (new_soup out)
          (Located (l_id r) ((l_dd r).1, dd') (l_title r) (l_html_link r)) w2
        = (Ok (StepOut (new_soup out) None (Some d)), w2, []).
Proof.
  unfold enrich_located in Hrun.
  destruct (find (by_class "div" "list-abstract") (l_dd r)) as [ex|] eqn:Hex.
  { injection Hrun as <- _ _. discriminate Hins. }
  destruct (get_abstract http_get (l_id r) w) as [[abstract w1] ev1].
  destruct abstract as [[|c s]|];
    [injection Hrun as <- _ _; discriminate Hins| |
     injection Hrun as <- _ _; discriminate Hins].
  destruct (splice_abstract soup (l_dd r) (abstract_div (c :: s)))
    as [[soup' at']|] eqn:Hs; [|done].
  injection Hrun as <- _ _. cbn [new_soup].
  destruct (splice_leaves_container soup (l_dd r) (c :: s) soup' at'
              (locate_valid _ _ _ Hr) (locate_detail _ _ _ Hr) Hs)
    as (dd' & Hdd' & [ea Hea]).
  exists dd'. split; [done|]. split; [by exists ea|].
  intros w2. eexists. unfold enrich_located. cbn [l_dd]. rewrite Hea. done.
Qed.
End first_pass.

Lemma fetched_abstract_reads_back_witness :
  clean_abstract (get_text (abstract_div (str "We study robots.")))
  = str "We study robots.".
Proof.
  apply (fetched_abstract_reads_back
           (scripted [Some (abs_page " We study robots. ")])
           (str "2511.08583") 0).
  - vm_compute. reflexivity.
  - vm_compute. reflexivity.
Defined.

Lemma inserted_pair_is_reentrant_witness :
  ∃ dd', get_node listing_enriched [0; 2] = Some dd'
    ∧ is_Some (find (by_class "div" "list-abstract") ([0; 2], dd'))
    ∧ ∀ w2, ∃ d,
        enrich_located (scripted [Some (abs_page " We study robots. ")])
          listing_enriched
          (Located (str "2511.08583") ([0; 2], dd') (str "A Study of Robots") None)
          w2
        = (Ok (StepOut listing_enriched None (Some d)), w2, []).
Proof.
  apply (inserted_pair_is_reentrant
           (scripted [Some (abs_page " We study robots. ")])
           listing_scenario scenario_dt scenario_located 0
           (StepOut listing_enriched (Some ([0; 2; 0], 2))
              (Some (make_paper_data (str "2511.08583") (str "A Study of Robots")
                       None (Some (str "We study robots.")))))
           1 [Get (abs_url (str "2511.08583")); Sleep 500] ([0; 2; 0], 2)).
  - vm_compute. reflexivity.
  - vm_compute. reflexivity.
  - reflexivity.
Defined.

(** ** The authors read from the text of the authors block *)

Lemma match_comma c s :
  match_here re_comma (c :: s) = if (c =? 44)%N then Some 1 else None.
Proof.
  change re_comma with [(Chr 44%N, One)]. rewrite match_here_one.
  cbn [atom_ok match_here fmap option_fmap option_map].
  by destruct (c =? 44)%N.
Qed.

Lemma re_split_go_nonempty r k cur s : re_split_go r k cur s ≠ [].
Proof.
  revert k cur. induction s as [|c s IH]; intros k cur; [done|].
  cbn [re_split_go]. destruct k as [|k]; [|apply IH].
  destruct (match_here r (c :: s)) as [[|n]|]; [apply IH|done|apply IH].
Qed.

Lemma re_split_comma cur s :
  44%N ∉ cur →
  join (str ",") (re_split_go re_comma 0 cur s) = cur ++ s
  ∧ Forall (λ a, 44%N ∉ a) (re_split_go re_comma 0 cur s).
Proof.
  revert cur. induction s as [|c s IH]; intros cur Hcur.
  { cbn [re_split_go join]. rewrite (right_id_L [] (++)). by repeat constructor. }
  cbn [re_split_go]. rewrite match_comma.
  destruct (c =? 44)%N eqn:Hc.
  - apply N.eqb_eq in Hc as ->.
    destruct (IH [] ltac:(apply not_elem_of_nil)) as [Hj Hall].
    pose proof (re_split_go_nonempty re_comma 0 [] s) as Hne.
    destruct (re_split_go re_comma 0 [] s) as [|y l]; [done|].
    split; [|by constructor].
    change (join (str ",") (cur :: y :: l))
      with (cur ++ str "," ++ join (str ",") (y :: l)).
    by rewrite Hj.
  - apply N.eqb_neq in Hc.
    destruct (IH (cur ++ [c])) as [Hj Hall].
    { rewrite elem_of_app, list_elem_of_singleton. intros [?|?]; [done|].
      by apply Hc. }
    split; [|done]. by rewrite Hj, <-(assoc_L (++)).
Qed.

Lemma lstrip_subseteq s : lstrip s ⊆ s.
Proof.
  destruct (lstrip_suffix s) as (ws & Hs & _). intros x Hx.
  rewrite Hs. apply elem_of_app. by right.
Qed.

Lemma strip_subseteq s : strip s ⊆ s.
Proof.
  intros x. unfold strip. rewrite elem_of_reverse.
  intros Hx%lstrip_subseteq. rewrite elem_of_reverse in Hx.
  by apply lstrip_subseteq.
Qed.

(** X15. When the authors block has no author link, the authors are read
    from its text: the text without the label is split at its commas, so
    that joining the pieces with commas gives the text back; the authors are
    the stripped pieces that are not blank, also for an empty text, and no
    author holds a comma. *)
Theorem authors_split_at_commas (dd authors_div : elem)
    (Hdiv : find (by_class "div" "list-authors") dd = Some authors_div)
    (Hlinks : find_all (by_href "a" re_search_link) authors_div = []) :
  let authors_text := strip (re_sub re_authors_label (get_text authors_div.2)) in
  join (str ",") (re_split re_comma authors_text) = authors_text
  ∧ scraper_authors dd
    = strip <$> filter (λ a, strip a ≠ []) (re_split re_comma authors_text)
  ∧ Forall (λ a, 44%N ∉ a) (scraper_authors dd).
Proof.
  intros authors_text.
  destruct (re_split_comma [] authors_text ltac:(apply not_elem_of_nil))
    as [Hj Hall].
  assert (scraper_authors dd
          = strip <$> filter (λ a, strip a ≠ []) (re_split re_comma authors_text))
    as Hauthors.
  { unfold scraper_authors. rewrite Hdiv, Hlinks. fold authors_text.
    by destruct authors_text. }
  split; [done|]. split; [done|].
  rewrite Hauthors. apply Forall_fmap, Forall_forall.
  intros a [_ Ha]%list_elem_of_filter. simpl.
  rewrite Forall_forall in Hall. intros Hin%strip_subseteq.
  by apply (Hall a Ha).
Qed.

Lemma authors_split_at_commas_witness :
  let authors_div :=
    ([0; 2; 0; 1],
     el "div" ["list-authors"] None [txt "Authors: Ada Lovelace, Alan Turing"]) in
  let dd :=
    ([0; 2],
     detail " A Study of Robots" [txt "Authors: Ada Lovelace, Alan Turing"]) in
  let authors_text := strip (re_sub re_authors_label (get_text authors_div.2)) in
  join (str ",") (re_split re_comma authors_text) = authors_text
  ∧ scraper_authors dd
    = strip <$> filter (λ a, strip a ≠ []) (re_split re_comma authors_text)
  ∧ Forall (λ a, 44%N ∉ a) (scraper_authors dd).
Proof.
  intros authors_div dd.
  apply (authors_split_at_commas dd authors_div).
  - vm_compute. reflexivity.
  - vm_compute. reflexivity.
Defined.

(** * The second run of the driver *)

(** ** Insertions *)

















(** ** Documents whose markers and details are not nested *)




Section shapes.
Variables P Q : node → bool.
Hypothesis P_shape : ∀ cs n, P (set_contents cs n) = P n.
Hypothesis Q_shape : ∀ cs n, Q (set_contents cs n) = Q n.

Lemma shape_insert_child (R : node → bool) n q k new :
  (∀ cs n, R (set_contents cs n) = R n) →
  R (insert_child n q k new) = R n.
Proof.
  intros HR. unfold insert_child. destruct q as [|i q]; simpl; [apply HR|].
  destruct (contents_of n !! i); [apply HR|done].
Qed.






End shapes.














Section step.
Variables (soup : node) (d q' : path) (k : nat) (abstract : text).
Variables (ddn : node) (nm : text) (c : option classes) (a : gmap text text)
          (cs : list node).
Hypothesis Hflat : flat soup = true.
Hypothesis Hdd : get_node soup d = Some ddn.
Hypothesis Hddn : is_tag (str "dd") ddn = true.
Hypothesis Htarget : get_node ddn q' = Some (Tag nm c a cs).
Hypothesis Hk : k ≤ length cs.
Hypothesis Htitles : titles_apart soup = true.
Hypothesis Hmeta : q' = [] ∨ is_meta (Tag nm c a cs) = true.

Let new := abstract_div abstract.
Let soup' := insert_child soup (d ++ q') k new.









End step.

(** ** The second run *)









Section second_run.
Context {W : Type} (http_get : text → W → option node * W).




End second_run.


(** Left out of C2: when the metadata region of a detail element is its
    title container, the first run puts the abstract container into the
    title container, and the second run reads a longer title. *)
Lemma title_in_meta_changes_second_run :
  let net := scripted [Some (abs_page " We study robots. ")] in
  titles_apart listing_title_is_meta = false
  ∧ ∃ soup1 data1 data2,
      add_abstracts_to_html net listing_title_is_meta 0
      = (Ok (soup1, data1), 1, [Get (abs_url (str "2511.08583")); Sleep 500])
      ∧ Forall plain_abstract data1
      ∧ add_abstracts_to_html net soup1 1 = (Ok (soup1, data2), 1, [])
      ∧ pd_title <$> data1 = [str "A Study of Robots"]
      ∧ pd_title <$> data2 = [str "A Study of RobotsAbstract: We study robots."].
Proof.
  intros net. split; [vm_compute; reflexivity|].
  eexists _, _, _. split; [vm_compute; reflexivity|].
  split.
  { constructor; [|constructor].
    split; [vm_compute; discriminate|vm_compute; reflexivity]. }
  split; [vm_compute; reflexivity|].
  split; vm_compute; reflexivity.
Qed.

(** Left out of C2: when a listing lies inside the title container of a
    detail element, the container that the first run inserts for the inner
    pair changes what the second run reads for the outer pair. *)
Lemma nested_listing_changes_second_run :
  let net := scripted [Some (abs_page " We study robots. ");
                       Some (abs_page " We study them again. ")] in
  flat listing_nested = false
  ∧ ∃ soup1 data1 data2,
      (add_abstracts_to_html net listing_nested 0).1.1 = Ok (soup1, data1)
      ∧ Forall plain_abstract data1
      ∧ add_abstracts_to_html net soup1 2 = (Ok (soup1, data2), 2, [])
      ∧ pd_abstract <$> data1
        = [str "We study robots."; str "We study them again."]
      ∧ pd_abstract <$> data2
        = [str "We study them again."; str "We study them again."].
Proof.
  intros net. split; [vm_compute; reflexivity|].
  eexists _, _, _. split; [vm_compute; reflexivity|].
  split.
  { constructor; [|constructor; [|constructor]];
      (split; [vm_compute; discriminate|vm_compute; reflexivity]). }
  split; [vm_compute; reflexivity|].
  split; vm_compute; reflexivity.
Qed.
